(** * pyPESTO [Problem]: the full / reduced parameter-space mapping

    A shallow embedding of [pypesto/problem.py].  The class [Problem] keeps
    full-space arrays (bounds, guesses, names, scales) together with a
    partition of the coordinates into fixed and free ones, and maps vectors
    between the full space (size [dim_full]) and the reduced space (size
    [dim]).

    Modelling choices:
    - a float64 is a [spec_float] of the Standard Library, so that NaN is a
      value of the type; a 1-D numpy array is a [list float], a 2-D one a
      [matrix] carrying its column count (shape [(0, w)] is not [(0, 0)]);
    - Python integers are [Z]; [dim_full] is a [nat] because no [Problem]
      with a negative [dim_full] survives [__init__] (see [__init__]);
    - an exception aborts the call: methods return [result];
    - [np.empty] returns uninitialised memory: every method that allocates
      takes an oracle [junk] giving the content of the fresh cells. *)

From Stdlib Require Import ZArith String DecimalString.
From Stdlib.Floats Require Import SpecFloat.
From stdpp Require Import base decidable option list list_numbers sorting
  gmap strings.

Local Open Scope string_scope.
Local Open Scope Z_scope.

(** ** Floats *)

Definition float : Type := SpecFloat.spec_float.

Definition nan : float := S754_nan.

(** The float64 nearest to [m * 2^e]. *)
Definition fl (m e : Z) : float := binary_normalize 53 1024 m e false.

Global Instance float_eq_dec : EqDecision float.
Proof. unfold float. solve_decision. Defined.

(** ** Exceptions *)

Inductive exn : Type :=
  | AssertionError (msg : string)
  | ValueError (msg : string)
  | IndexError (msg : string)
  | OverflowError (msg : string).

Inductive result (A : Type) : Type :=
  | Ok (a : A)
  | Raise (e : exn).
Global Arguments Ok {A} a.
Global Arguments Raise {A} e.

Global Instance result_ret : MRet result := λ A a, Ok a.

Global Instance result_bind : MBind result := λ A B k r,
  match r with
  | Ok a => k a
  | Raise e => Raise e
  end.

Global Instance result_fmap : FMap result := λ A B f r,
  match r with
  | Ok a => Ok (f a)
  | Raise e => Raise e
  end.

Definition succeeds {A : Type} (r : result A) : Prop := ∃ a, r = Ok a.

Definition raises {A : Type} (r : result A) : Prop := ∃ e, r = Raise e.

(** ** The fragment of numpy that the class uses *)

Module np.

(** [np.empty(n)]: [n] cells whose content is whatever the allocator
    hands out. *)
Definition empty (junk : nat → float) (n : nat) : list float :=
  junk <$> seq 0 n.

(** [a * np.ones(n)] for [a] of size 1: the only element is broadcast;
    multiplying a float64 by [1.0] gives the float back. *)
Definition mul_ones (a : list float) (n : nat) : list float :=
  match a with
  | x :: _ => replicate n x
  | [] => []
  end.

(** One index of a fancy index on an axis of length [n]: negative indices
    count from the end, anything outside [-n, n) is an [IndexError]. *)
Definition index (n : nat) (i : Z) : result nat :=
  if decide (0 ≤ i < Z.of_nat n) then Ok (Z.to_nat i)
  else if decide (- Z.of_nat n ≤ i < 0) then Ok (Z.to_nat (i + Z.of_nat n))
  else Raise (IndexError "index is out of bounds").

(** [a[idx]] for a list of integers [idx] ([index] answers below the
    length of [a], so the lookup finds a cell). *)
Fixpoint take (a : list float) (idx : list Z) : result (list float) :=
  match idx with
  | [] => Ok []
  | i :: idx' =>
      k ← index (length a) i;
      match a !! k with
      | Some x => (xs ← take a idx'; Ok (x :: xs))
      | None => Raise (IndexError "index is out of bounds")
      end
  end.

(** The writes of [a[idx] = vals] once the shapes agree, left to right
    (for a repeated index the last write stays). *)
Fixpoint scatter (a : list float) (idx : list Z) (vals : list float)
  : result (list float) :=
  match idx, vals with
  | i :: idx', v :: vals' =>
      k ← index (length a) i;
      scatter (<[k := v]> a) idx' vals'
  | _, _ => Ok a
  end.

(** [vals] broadcast to the shape [(n,)] of the indexing result. *)
Definition broadcast (vals : list float) (n : nat) : result (list float) :=
  if decide (length vals = n) then Ok vals
  else match vals with
       | [v] => Ok (replicate n v)
       | _ => Raise (ValueError "shape mismatch: value array could not be broadcast to indexing result")
       end.

(** [a[idx] = vals]: the value is broadcast to the index shape first
    ([ValueError]), then the indices are checked ([IndexError]). *)
Definition put (a : list float) (idx : list Z) (vals : list float)
  : result (list float) :=
  vs ← broadcast vals (length idx);
  scatter a idx vs.

End np.

(** ** 2-D arrays *)

Record matrix : Type := Matrix {
  ncols : nat;
  rows : list (list float)
}.

Definition nrows (m : matrix) : nat := length (rows m).

(** Every row has the width the shape announces. *)
Definition matrix_wf (m : matrix) : Prop :=
  Forall (λ r, length r = ncols m) (rows m).

Module np2.

(** [np.zeros((0, w))] *)
Definition zeros0 (w : nat) : matrix := Matrix w [].

(** [g = np.empty((r, w)); g[:] = np.nan] *)
Definition empty_nan (junk : nat → float) (r w : nat) : matrix :=
  Matrix w ((λ k, (λ _, nan) <$> np.empty junk w) <$> seq 0 r).

(** [g[:, idx] = m] (also [g[..., idx] = m]) for [m] with as many rows
    as [g]: the last axis of [m] must have the length of [idx], or
    length 1. *)
Definition put_cols (g : matrix) (idx : list Z) (m : matrix)
  : result matrix :=
  if decide (ncols m = length idx ∨ ncols m = 1%nat) then
    rs ← mapM (λ gr, np.put gr.1 idx gr.2) (zip (rows g) (rows m));
    Ok (Matrix (ncols g) rs)
  else Raise (ValueError "shape mismatch: value array could not be broadcast to indexing result").

(** [g[..., idx] = vals] for a 1-D [vals], written into every row. *)
Definition put_cols_vec (g : matrix) (idx : list Z) (vals : list float)
  : result matrix :=
  vs ← np.broadcast vals (length idx);
  rs ← mapM (λ r, np.scatter r idx vs) (rows g);
  Ok (Matrix (ncols g) rs).

End np2.

(** ** The objective collaborator *)

Record partition : Type := Partition {
  p_dim_full : nat;
  p_free : list Z;
  p_fixed : list Z;
  p_vals : list float
}.

(** Modelled from the spec: [ObjectiveBase] (pypesto/objective) is not part
    of the sources at hand.  The objective may declare names ([x_names],
    [None] when it declares none) and is told the current partition by
    [update_from_problem], which is idempotent and does not raise: it is
    modelled as remembering the last partition it was told. *)
Record Objective : Type := MkObjective {
  obj_x_names : option (list string);
  obj_partition : option partition
}.

Definition update_from_problem (o : Objective) (p : partition) : Objective :=
  {| obj_x_names := obj_x_names o; obj_partition := Some p |}.

(** ** The state of a [Problem] *)

(** [x_priors] is an opaque payload that no method reads: it is left out. *)
Record Problem : Type := MkProblem {
  objective : Objective;
  lb_full : list float;
  ub_full : list float;
  dim_full : nat;
  x_fixed_indices : list Z;
  x_fixed_vals : list float;
  x_guesses_full : matrix;
  x_names : list string;
  x_scales : list string
}.

Definition set_objective (o : Objective) (s : Problem) : Problem :=
  MkProblem o (lb_full s) (ub_full s) (dim_full s) (x_fixed_indices s)
    (x_fixed_vals s) (x_guesses_full s) (x_names s) (x_scales s).

Definition set_lb_full (a : list float) (s : Problem) : Problem :=
  MkProblem (objective s) a (ub_full s) (dim_full s) (x_fixed_indices s)
    (x_fixed_vals s) (x_guesses_full s) (x_names s) (x_scales s).

Definition set_ub_full (a : list float) (s : Problem) : Problem :=
  MkProblem (objective s) (lb_full s) a (dim_full s) (x_fixed_indices s)
    (x_fixed_vals s) (x_guesses_full s) (x_names s) (x_scales s).

Definition set_x_guesses_full (g : matrix) (s : Problem) : Problem :=
  MkProblem (objective s) (lb_full s) (ub_full s) (dim_full s)
    (x_fixed_indices s) (x_fixed_vals s) g (x_names s) (x_scales s).

Definition set_fixed (fi : list Z) (fv : list float) (s : Problem) : Problem :=
  MkProblem (objective s) (lb_full s) (ub_full s) (dim_full s) fi fv
    (x_guesses_full s) (x_names s) (x_scales s).

(** ** Derived views (the properties of the class) *)

(** [dim_full - len(x_fixed_indices)], a Python integer. *)
Definition dim (s : Problem) : Z :=
  Z.of_nat (dim_full s) - Z.of_nat (length (x_fixed_indices s)).

(** [sorted(set(range(0, dim_full)) - set(x_fixed_indices))] *)
Definition x_free_indices (s : Problem) : list Z :=
  merge_sort Z.le
    (elements ((list_to_set (seqZ 0 (Z.of_nat (dim_full s))) : gset Z)
                 ∖ list_to_set (x_fixed_indices s))).

(** [lb_full[x_free_indices]] *)
Definition lb (s : Problem) : result (list float) :=
  np.take (lb_full s) (x_free_indices s).

(** [ub_full[x_free_indices]] *)
Definition ub (s : Problem) : result (list float) :=
  np.take (ub_full s) (x_free_indices s).

(** ** [normalize] *)

(** Lines 156-161.  The property [lb] is read after [lb_full] has been
    replaced by the fresh array. *)
Definition normalize_lb (junk : nat → float) (s : Problem) : result Problem :=
  if decide (length (lb_full s) = 1%nat) then
    Ok (set_lb_full (np.mul_ones (lb_full s) (dim_full s)) s)
  else if decide (length (lb_full s) ≠ dim_full s) then
    let s := set_lb_full (np.empty junk (dim_full s)) s in
    reduced ← lb s;
    a ← np.put (lb_full s) (x_free_indices s) reduced;
    let s := set_lb_full a s in
    a ← np.put (lb_full s) (x_fixed_indices s) (x_fixed_vals s);
    Ok (set_lb_full a s)
  else Ok s.

(** Lines 163-168. *)
Definition normalize_ub (junk : nat → float) (s : Problem) : result Problem :=
  if decide (length (ub_full s) = 1%nat) then
    Ok (set_ub_full (np.mul_ones (ub_full s) (dim_full s)) s)
  else if decide (length (ub_full s) ≠ dim_full s) then
    let s := set_ub_full (np.empty junk (dim_full s)) s in
    reduced ← ub s;
    a ← np.put (ub_full s) (x_free_indices s) reduced;
    let s := set_ub_full a s in
    a ← np.put (ub_full s) (x_fixed_indices s) (x_fixed_vals s);
    Ok (set_ub_full a s)
  else Ok s.

(** Lines 170-174. *)
Definition normalize_guesses (junk : nat → float) (s : Problem)
  : result Problem :=
  if decide (ncols (x_guesses_full s) ≠ dim_full s) then
    let x_guesses :=
      np2.empty_nan junk (nrows (x_guesses_full s)) (dim_full s) in
    x_guesses ← np2.put_cols x_guesses (x_free_indices s) (x_guesses_full s);
    Ok (set_x_guesses_full x_guesses s)
  else Ok s.

(** Lines 176-181. *)
Definition notify_objective (s : Problem) : Problem :=
  set_objective
    (update_from_problem (objective s)
       (Partition (dim_full s) (x_free_indices s) (x_fixed_indices s)
          (x_fixed_vals s)))
    s.

(** Lines 156-181: everything before the sanity checks.  [junk k] is the
    content of the [k]-th array that [np.empty] hands out. *)
Definition normalize_steps (junk : nat → nat → float) (s : Problem)
  : result Problem :=
  s ← normalize_lb (junk 0%nat) s;
  s ← normalize_ub (junk 1%nat) s;
  s ← normalize_guesses (junk 2%nat) s;
  Ok (notify_objective s).

(** Lines 183-195. *)
Definition sanity_checks (s : Problem) : result Problem :=
  if decide (length (lb_full s) ≠ dim_full s) then
    Raise (AssertionError "lb_full dimension invalid.")
  else if decide (length (ub_full s) ≠ dim_full s) then
    Raise (AssertionError "ub_full dimension invalid.")
  else if decide (length (x_scales s) ≠ dim_full s) then
    Raise (AssertionError "x_scales dimension invalid.")
  else if decide (length (x_names s) ≠ dim_full s) then
    Raise (AssertionError "x_names must be of length dim_full.")
  else if decide (length (x_fixed_indices s) ≠ length (x_fixed_vals s)) then
    Raise (AssertionError "x_fixed_indices and x_fixed_vals musti have the same length.")
  else Ok s.

Definition normalize (junk : nat → nat → float) (s : Problem)
  : result Problem :=
  s ← normalize_steps junk s;
  sanity_checks s.

(** ** Python lists *)

Module py.

(** [l[k]] for [k >= 0] *)
Definition getitem {A : Type} (l : list A) (k : nat) : result A :=
  match l !! k with
  | Some x => Ok x
  | None => Raise (IndexError "list index out of range")
  end.

(** [l[k] = x] for [k >= 0] *)
Definition setitem {A : Type} (l : list A) (k : nat) (x : A)
  : result (list A) :=
  if decide (k < length l)%nat then Ok (<[k := x]> l)
  else Raise (IndexError "list assignment index out of range").

(** [l.pop(k)] for [k >= 0], keeping the list that is left *)
Definition pop {A : Type} (l : list A) (k : nat) : result (list A) :=
  if decide (k < length l)%nat then Ok (delete k l)
  else Raise (IndexError "pop index out of range").

(** [l.index(x)]: the position of the first [x] *)
Fixpoint index (x : Z) (l : list Z) : result nat :=
  match l with
  | [] => Raise (ValueError "x is not in list")
  | y :: l' => if decide (y = x) then Ok 0%nat else S <$> index x l'
  end.

(** [f'x{j}'] *)
Definition x_name (j : nat) : string :=
  ("x" ++ NilEmpty.string_of_uint (Nat.to_uint j))%string.

End py.

(** ** Construction *)

(** A scalar or a sequence, where the code accepts both. *)
Inductive scalar_or_list (A : Type) : Type :=
  | One (a : A)
  | Many (l : list A).
Global Arguments One {A} a.
Global Arguments Many {A} l.

(** [np.array(v).flatten()], and the wrapping of a single value in a list *)
Definition as_list {A : Type} (v : scalar_or_list A) : list A :=
  match v with
  | One a => [a]
  | Many l => l
  end.

(** Lines 116-120: the names the constructor settles on. *)
Definition init_names (objective : Objective) (x_names : option (list string))
  (dim_full : nat) : list string :=
  match obj_x_names objective with
  | Some names => names
  | None =>
      match x_names with
      | Some names => names
      | None => py.x_name <$> seq 0 dim_full
      end
  end.

(** Lines 91-128, for [dim_full >= 0]. *)
Definition init_fields (objective : Objective) (lb ub : scalar_or_list float)
  (dim_full : nat) (x_fixed_indices : option (list Z))
  (x_fixed_vals : option (scalar_or_list float)) (x_guesses : option matrix)
  (x_names x_scales : option (list string)) : Problem :=
  {| objective := objective;
     lb_full := as_list lb;
     ub_full := as_list ub;
     dim_full := dim_full;
     x_fixed_indices := default [] x_fixed_indices;
     x_fixed_vals := default [] (as_list <$> x_fixed_vals);
     x_guesses_full := default (np2.zeros0 dim_full) x_guesses;
     x_names := init_names objective x_names dim_full;
     x_scales := default (replicate dim_full "lin") x_scales |}.

(** [Problem.__init__].  A negative [dim_full] never gives a [Problem]:
    [np.zeros((0, dim_full))] (no guesses given), or else [np.ones(dim_full)]
    or [np.empty(dim_full)] in [normalize] (the size of [lb_full] is 1 or
    differs from [dim_full]) raises [ValueError]. *)
Definition __init__ (junk : nat → nat → float) (objective : Objective)
  (lb ub : scalar_or_list float) (dim_full : option Z)
  (x_fixed_indices : option (list Z))
  (x_fixed_vals : option (scalar_or_list float)) (x_guesses : option matrix)
  (x_names x_scales : option (list string)) : result Problem :=
  let d := default (Z.of_nat (length (as_list lb))) dim_full in
  if decide (d < 0) then
    Raise (ValueError "negative dimensions are not allowed")
  else
    normalize junk
      (init_fields objective lb ub (Z.to_nat d) x_fixed_indices x_fixed_vals
         x_guesses x_names x_scales).

(** ** [fix_parameters] and [unfix_parameters] *)

(** Lines 211-220: the loop over [enumerate(parameter_indices)]. *)
Fixpoint fix_loop (parameter_indices : list Z) (i_index : nat)
  (parameter_vals : list float) (fi : list Z) (fv : list float)
  : result (list Z * list float) :=
  match parameter_indices with
  | [] => Ok (fi, fv)
  | i_parameter :: rest =>
      v ← py.getitem parameter_vals i_index;
      if decide (i_parameter ∈ fi) then
        k ← py.index i_parameter fi;
        fv' ← py.setitem fv k v;
        fix_loop rest (S i_index) parameter_vals fi fv'
      else
        fix_loop rest (S i_index) parameter_vals
          (fi ++ [i_parameter]) (fv ++ [v])
  end.

Definition fix_parameters (junk : nat → nat → float) (s : Problem)
  (parameter_indices : scalar_or_list Z)
  (parameter_vals : scalar_or_list float) : result Problem :=
  '(fi, fv) ← fix_loop (as_list parameter_indices) 0 (as_list parameter_vals)
                (x_fixed_indices s) (x_fixed_vals s);
  normalize junk (set_fixed fi fv s).

(** Lines 236-240. *)
Fixpoint unfix_loop (parameter_indices : list Z) (fi : list Z)
  (fv : list float) : result (list Z * list float) :=
  match parameter_indices with
  | [] => Ok (fi, fv)
  | i_parameter :: rest =>
      if decide (i_parameter ∈ fi) then
        i_index ← py.index i_parameter fi;
        fi' ← py.pop fi i_index;
        fv' ← py.pop fv i_index;
        unfix_loop rest fi' fv'
      else unfix_loop rest fi fv
  end.

Definition unfix_parameters (junk : nat → nat → float) (s : Problem)
  (parameter_indices : scalar_or_list Z) : result Problem :=
  '(fi, fv) ← unfix_loop (as_list parameter_indices)
                (x_fixed_indices s) (x_fixed_vals s);
  normalize junk (set_fixed fi fv s).

(** ** Projections *)

(** What the projections receive after [np.array(x)]: a vector, or a batch
    of vectors whose last axis is the parameter axis. *)
Inductive ndarray : Type :=
  | Arr1 (v : list float)
  | Arr2 (m : matrix).

(** [len(x)]: the length of the first axis *)
Definition len (x : ndarray) : nat :=
  match x with
  | Arr1 v => length v
  | Arr2 m => nrows m
  end.

(** [np.zeros(n)] followed by [x_full[:] = np.nan] *)
Definition nan_vector (n : nat) : list float :=
  (λ _, nan) <$> replicate n (S754_zero false).

(** Lines 261-277. *)
Definition get_full_vector (s : Problem) (x : option ndarray)
  (x_fixed_vals : option (list float)) : result (option ndarray) :=
  match x with
  | None => Ok None
  | Some x =>
      if decide (len x = dim_full s) then Ok (Some x)
      else
        match x with
        | Arr1 v =>
            let x_full := nan_vector (dim_full s) in
            x_full ← np.put x_full (x_free_indices s) v;
            x_full ← match x_fixed_vals with
                     | Some f => np.put x_full (x_fixed_indices s) f
                     | None => Ok x_full
                     end;
            Ok (Some (Arr1 x_full))
        | Arr2 m =>
            let x_full :=
              Matrix (dim_full s)
                (replicate (nrows m) (nan_vector (dim_full s))) in
            x_full ← np2.put_cols x_full (x_free_indices s) m;
            x_full ← match x_fixed_vals with
                     | Some f => np2.put_cols_vec x_full (x_fixed_indices s) f
                     | None => Ok x_full
                     end;
            Ok (Some (Arr2 x_full))
        end
  end.

(** [np.array([x_full[idx] for idx in idxs])] for a 2-D [x_full]: the
    selected rows; an empty selection is the 1-D empty array. *)
Definition take_rows (m : matrix) (idx : list Z) : result ndarray :=
  rs ← mapM (λ i, k ← np.index (nrows m) i; py.getitem (rows m) k) idx;
  match rs with
  | [] => Ok (Arr1 [])
  | _ => Ok (Arr2 (Matrix (ncols m) rs))
  end.

(** Lines 316-323. *)
Definition get_reduced_vector (s : Problem) (x_full : option ndarray)
  : result (option ndarray) :=
  match x_full with
  | None => Ok None
  | Some x_full =>
      if decide (Z.of_nat (len x_full) = dim s) then Ok (Some x_full)
      else
        match x_full with
        | Arr1 v => x ← np.take v (x_free_indices s); Ok (Some (Arr1 x))
        | Arr2 m => x ← take_rows m (x_free_indices s); Ok (Some x)
        end
  end.

(** The values of a numpy [int64]. *)
Definition int64 (z : Z) : Prop := - 2 ^ 63 ≤ z < 2 ^ 63.

Global Instance int64_dec z : Decision (int64 z).
Proof. unfold int64. apply _. Defined.

(** The [int64] that numpy's scalar arithmetic leaves when the exact result
    is [z]: an overflow wraps around (with a warning, not an error). *)
Definition wrap64 (z : Z) : Z := (z + 2 ^ 63) `mod` 2 ^ 64 - 2 ^ 63.

(** [sum(fixed_indices < full_index)] for a non-empty array: Python's [sum]
    starts from 0 and adds the numpy booleans one by one, each addition
    giving an [int64]. *)
Definition sum_less (fixed_indices : list Z) (full_index : Z) : Z :=
  foldl (λ acc j, wrap64 (acc + (if decide (j < full_index) then 1 else 0)))
    0 fixed_indices.

(** Lines 357-361.  The membership test and the comparison are exact
    (numpy compares an integer array with a Python integer exactly, also
    beyond [int64]).  With nothing fixed, [sum] of the empty array is
    Python's 0 and the subtraction is Python's, on unbounded integers.
    Otherwise the count is an [int64] and [full_index - count] is [int64]
    arithmetic: a [full_index] that is no [int64] raises [OverflowError],
    and a result beyond [int64] wraps around. *)
Definition full_index_to_free_index (s : Problem) (full_index : Z)
  : result Z :=
  let fixed_indices := x_fixed_indices s in
  if decide (full_index ∈ fixed_indices) then
    Raise (ValueError "Cannot compute index in free vector: Index is fixed.")
  else
    match fixed_indices with
    | [] => Ok (full_index - 0)
    | _ :: _ =>
        if decide (int64 full_index) then
          Ok (wrap64 (full_index - sum_less fixed_indices full_index))
        else Raise (OverflowError "Python integer out of bounds for int64")
    end.

(** ** Matrices and columns: the remaining views and projections *)

Module np_ix.

(** [m[:, idx]]: the indices are checked against the width, then every row
    is read at them. *)
Definition take_cols (m : matrix) (idx : list Z) : result matrix :=
  _ ← mapM (np.index (ncols m)) idx;
  rs ← mapM (λ r, np.take r idx) (rows m);
  Ok (Matrix (length idx) rs).

(** [m[np.ix_(ridx, cidx)]]: the rows named by [ridx], each read at
    [cidx]. *)
Definition take (m : matrix) (ridx cidx : list Z) : result matrix :=
  _ ← mapM (np.index (ncols m)) cidx;
  rs ← mapM (λ i, k ← np.index (nrows m) i; py.getitem (rows m) k) ridx;
  rs ← mapM (λ r, np.take r cidx) rs;
  Ok (Matrix (length cidx) rs).

(** The row writes of [g[np.ix_(ridx, cidx)] = rs] once the shapes agree:
    row [ridx[j]] of [g] receives [rs[j]] at the columns [cidx]. *)
Fixpoint scatter_rows (g : list (list float)) (ridx cidx : list Z)
  (rs : list (list float)) : result (list (list float)) :=
  match ridx, rs with
  | i :: ridx', r :: rs' =>
      k ← np.index (length g) i;
      row ← py.getitem g k;
      row' ← np.put row cidx r;
      scatter_rows (<[k := row']> g) ridx' cidx rs'
  | _, _ => Ok g
  end.

(** [g[np.ix_(ridx, cidx)] = m]: the shape of [m] must broadcast to
    [(len(ridx), len(cidx))], an axis of length 1 being repeated. *)
Definition put (g : matrix) (ridx cidx : list Z) (m : matrix)
  : result matrix :=
  if decide ((nrows m = length ridx ∨ nrows m = 1%nat)
             ∧ (ncols m = length cidx ∨ ncols m = 1%nat)) then
    let rs := if decide (nrows m = length ridx) then rows m
              else match rows m with
                   | r :: _ => replicate (length ridx) r
                   | [] => []
                   end in
    rs' ← scatter_rows (rows g) ridx cidx rs;
    Ok (Matrix (ncols g) rs')
  else Raise (ValueError "shape mismatch: value array could not be broadcast to indexing result").

End np_ix.

(** [x_guesses_full[:, x_free_indices]] *)
Definition x_guesses (s : Problem) : result matrix :=
  np_ix.take_cols (x_guesses_full s) (x_free_indices s).

(** Lines 290-303, for a 2-D [x]. *)
Definition get_full_matrix (s : Problem) (x : option matrix)
  : result (option matrix) :=
  match x with
  | None => Ok None
  | Some x =>
      if decide (nrows x = dim_full s) then Ok (Some x)
      else
        let x_full :=
          Matrix (dim_full s)
            (replicate (dim_full s) (nan_vector (dim_full s))) in
        x_full ← np_ix.put x_full (x_free_indices s) (x_free_indices s) x;
        Ok (Some x_full)
  end.

(** Lines 336-344, for a 2-D [x_full]. *)
Definition get_reduced_matrix (s : Problem) (x_full : option matrix)
  : result (option matrix) :=
  match x_full with
  | None => Ok None
  | Some x_full =>
      if decide (Z.of_nat (nrows x_full) = dim s) then Ok (Some x_full)
      else
        x ← np_ix.take x_full (x_free_indices s) (x_free_indices s);
        Ok (Some x)
  end.

(** Lines 372-373: the column [free] of the parameter summary. *)
Definition free_column (s : Problem) : list bool :=
  (λ idx, bool_decide (idx ∈ x_free_indices s))
    <$> seqZ 0 (Z.of_nat (dim_full s)).

(** ** Scenarios *)

(** An allocator whose fresh cells all hold 7.0. *)
Definition no_junk : nat → nat → float := λ _ _, fl 7 0.

(** An objective that declares no names and has not been notified yet. *)
Definition no_objective : Objective := MkObjective None None.

(** Scenario A: [dim_full = 3], [lb = [0,0,0]], [ub = [1,1,1]]. *)
Definition scenario_A : result Problem :=
  __init__ no_junk no_objective
    (Many [fl 0 0; fl 0 0; fl 0 0]) (Many [fl 1 0; fl 1 0; fl 1 0])
    (Some 3) None None None None None.

(** Scenario B: from scenario A, [fix_parameters([1], [0.5])]. *)
Definition scenario_B : result Problem :=
  s ← scenario_A; fix_parameters no_junk s (Many [1]) (Many [fl 1 (-1)]).

(** Scenario C: from scenario B, [unfix_parameters([1])]. *)
Definition scenario_C : result Problem :=
  s ← scenario_B; unfix_parameters no_junk s (Many [1]).

(** ** Predicates and example states used in the statements *)

(** The free indices, read off the range: what is left of
    [0, ..., dim_full - 1] once the fixed indices are struck out. *)
Definition free_of (n : nat) (fixed : list Z) : list Z :=
  filter (λ i, i ∉ fixed) (seqZ 0 (Z.of_nat n)).

(** The partition the data model asks for: the fixed indices are distinct
    and lie in [[0, dim_full)]. *)
Definition valid_partition (s : Problem) : Prop :=
  NoDup (x_fixed_indices s) ∧
  Forall (λ i, 0 ≤ i < Z.of_nat (dim_full s)) (x_fixed_indices s).

Global Instance valid_partition_dec s : Decision (valid_partition s).
Proof. unfold valid_partition. apply _. Defined.

(** A fill for the fixed positions as the interface describes it: absent,
    or one value per fixed index. *)
Definition fill_fits (s : Problem) (f : option (list float)) : Prop :=
  match f with
  | None => True
  | Some v => length v = length (x_fixed_indices s)
  end.

(** The number of fixed indices strictly below [i]. *)
Definition count_less (fixed : list Z) (i : Z) : Z :=
  Z.of_nat (length (filter (λ j, j < i) fixed)).

(** The index [i], the number of fixed indices below it and their
    difference are all values of an [int64]. *)
Definition fits_int64 (fixed : list Z) (i : Z) : Prop :=
  int64 i ∧ count_less fixed i < 2 ^ 63 ∧ - 2 ^ 63 ≤ i - count_less fixed i.

Global Instance fits_int64_dec fixed i : Decision (fits_int64 fixed i).
Proof. unfold fits_int64. apply _. Defined.

(** The state of scenario B, written out. *)
Definition state_B : Problem :=
  {| objective :=
       MkObjective None (Some (Partition 3 [0; 2] [1] [fl 1 (-1)]));
     lb_full := [fl 0 0; fl 0 0; fl 0 0];
     ub_full := [fl 1 0; fl 1 0; fl 1 0];
     dim_full := 3;
     x_fixed_indices := [1];
     x_fixed_vals := [fl 1 (-1)];
     x_guesses_full := Matrix 3 [];
     x_names := ["x0"; "x1"; "x2"]%string;
     x_scales := ["lin"; "lin"; "lin"]%string |}.

(** What the sanity checks of [normalize] look at, with the width of the
    guesses, which the steps before them settle. *)
Definition dimensions_agree (s : Problem) : Prop :=
  length (lb_full s) = dim_full s
  ∧ length (ub_full s) = dim_full s
  ∧ length (x_scales s) = dim_full s
  ∧ length (x_names s) = dim_full s
  ∧ ncols (x_guesses_full s) = dim_full s
  ∧ length (x_fixed_indices s) = length (x_fixed_vals s).

Global Instance dimensions_agree_dec s : Decision (dimensions_agree s).
Proof. unfold dimensions_agree. apply _. Defined.

(** The errors numpy raises; the sanity checks raise [AssertionError]. *)
Definition numpy_error (e : exn) : Prop :=
  match e with
  | AssertionError _ => False
  | ValueError _ | IndexError _ | OverflowError _ => True
  end.

Definition raises_numpy {A : Type} (r : result A) : Prop :=
  ∀ e, r = Raise e → numpy_error e.

(** The states a caller can hold: a [Problem] comes out of [__init__] and
    is changed by [normalize], [fix_parameters] and [unfix_parameters]. *)
Inductive reachable : Problem → Prop :=
  | reach_init junk o lb ub d fi fv g names scales s :
      __init__ junk o lb ub d fi fv g names scales = Ok s → reachable s
  | reach_normalize junk s s' :
      reachable s → normalize junk s = Ok s' → reachable s'
  | reach_fix junk s pi pv s' :
      reachable s → fix_parameters junk s pi pv = Ok s' → reachable s'
  | reach_unfix junk s pi s' :
      reachable s → unfix_parameters junk s pi = Ok s' → reachable s'.

Definition current_partition (s : Problem) : partition :=
  Partition (dim_full s) (x_free_indices s) (x_fixed_indices s)
    (x_fixed_vals s).

(** What [normalize] leaves behind: the dimensions agree and the objective
    knows the current partition. *)
Definition consistent (s : Problem) : Prop :=
  dimensions_agree s
  ∧ obj_partition (objective s) = Some (current_partition s).

(** The objective "declares no names": it has none, or an empty list. *)
Definition declares_none (o : Objective) : Prop :=
  obj_x_names o = None ∨ obj_x_names o = Some [].

(** An objective that declares the names [a], [b], [c]. *)
Definition named_objective : Objective :=
  MkObjective (Some ["a"; "b"; "c"]%string) None.

(** Scenario E: [lb = 0.0], [dim_full = 4]. *)
Definition scenario_E : result Problem :=
  __init__ no_junk no_objective (One (fl 0 0)) (One (fl 1 0)) (Some 4)
    None None None None None.

(** Reduced bounds [[10, 20]] and [[30, 40]] for a problem of full
    dimension 3 whose coordinate 1 is fixed at 0.5. *)
Definition reduced_bounds_problem (junk : nat → nat → float)
  : result Problem :=
  __init__ junk no_objective (Many [fl 10 0; fl 20 0])
    (Many [fl 30 0; fl 40 0]) (Some 3) (Some [1]) (Some (Many [fl 1 (-1)]))
    None None None.

(** [a] is [v] scattered into the free positions of a NaN-filled vector of
    full width: the free positions hold [v] in order, the fixed positions
    hold NaN. *)
Definition scattered (s : Problem) (v a : list float) : Prop :=
  length a = dim_full s
  ∧ (length v = length (x_free_indices s) →
     ∀ k i, x_free_indices s !! k = Some i → a !! Z.to_nat i = v !! k)
  ∧ (∀ j, (j < dim_full s)%nat → Z.of_nat j ∈ x_fixed_indices s →
          a !! j = Some nan).

(** Lines 275-276 on a vector and on a batch: the fill for the fixed
    positions, when one is given. *)
Definition fill_fixed (s : Problem) (f : option (list float))
  (a : list float) : result (list float) :=
  match f with
  | Some v => np.put a (x_fixed_indices s) v
  | None => Ok a
  end.

Definition fill_fixed_rows (s : Problem) (f : option (list float))
  (g : matrix) : result matrix :=
  match f with
  | Some v => np2.put_cols_vec g (x_fixed_indices s) v
  | None => Ok g
  end.

(** What [get_full_vector] returns for an input whose first axis has not
    the length [dim_full]: the input scattered along its last axis into a
    NaN-filled array of full width, then the fill. *)
Definition full_of (s : Problem) (f : option (list float))
  (x : ndarray) (y : option ndarray) : Prop :=
  match x, y with
  | Arr1 v, Some (Arr1 a) =>
      ∃ a1, scattered s v a1 ∧ fill_fixed s f a1 = Ok a
  | Arr2 m, Some (Arr2 g) =>
      ∃ g1, ncols g1 = dim_full s
            ∧ Forall2 (scattered s) (rows m) (rows g1)
            ∧ fill_fixed_rows s f g1 = Ok g
  | _, _ => False
  end.

(** A batch of three rows in reduced width 2. *)
Definition batch_3x2 : ndarray :=
  Arr2 (Matrix 2 [[fl 1 0; fl 2 0]; [fl 3 0; fl 4 0]; [fl 5 0; fl 6 0]]).

(** A batch of two rows in reduced width 2. *)
Definition batch_2x2 : ndarray :=
  Arr2 (Matrix 2 [[fl 1 0; fl 2 0]; [fl 3 0; fl 4 0]]).

(** Guesses given in reduced width 2 for a problem of full dimension 3
    whose coordinate 1 is fixed, before [normalize]. *)
Definition reduced_guesses_fields : Problem :=
  init_fields no_objective (Many [fl 0 0; fl 0 0; fl 0 0])
    (Many [fl 1 0; fl 1 0; fl 1 0]) 3 (Some [1]) (Some (Many [fl 1 (-1)]))
    (Some (Matrix 2 [[fl 10 0; fl 20 0]; [fl 30 0; fl 40 0]])) None None.

Definition reduced_guesses_problem : Problem :=
  {| objective :=
       MkObjective None (Some (Partition 3 [0; 2] [1] [fl 1 (-1)]));
     lb_full := [fl 0 0; fl 0 0; fl 0 0];
     ub_full := [fl 1 0; fl 1 0; fl 1 0];
     dim_full := 3;
     x_fixed_indices := [1];
     x_fixed_vals := [fl 1 (-1)];
     x_guesses_full :=
       Matrix 3 [[fl 10 0; nan; fl 20 0]; [fl 30 0; nan; fl 40 0]];
     x_names := ["x0"; "x1"; "x2"]%string;
     x_scales := ["lin"; "lin"; "lin"]%string |}.

(** The state of scenario A, written out. *)
Definition state_A : Problem :=
  {| objective := MkObjective None (Some (Partition 3 [0; 1; 2] [] []));
     lb_full := [fl 0 0; fl 0 0; fl 0 0];
     ub_full := [fl 1 0; fl 1 0; fl 1 0];
     dim_full := 3;
     x_fixed_indices := [];
     x_fixed_vals := [];
     x_guesses_full := Matrix 3 [];
     x_names := ["x0"; "x1"; "x2"]%string;
     x_scales := ["lin"; "lin"; "lin"]%string |}.

(** The cell in row [r] and column [c]. *)
Definition cell (m : matrix) (r c : nat) : option float :=
  rows m !! r ≫= λ row, row !! c.

(** A symmetric 2 x 2 matrix in reduced space. *)
Definition hessian_2x2 : matrix :=
  Matrix 2 [[fl 1 0; fl 2 0]; [fl 2 0; fl 3 0]].

(** * Properties *)

(** ** The free indices *)

Lemma StronglySorted_seqZ (m : Z) (n : nat) :
  StronglySorted Z.lt (seqZ m (Z.of_nat n)).
Proof.
  revert m. induction n as [|n IH]; intros m.
  - rewrite seqZ_nil by lia. constructor.
  - rewrite seqZ_cons by lia.
    replace (Z.pred (Z.of_nat (S n))) with (Z.of_nat n) by lia.
    constructor; [apply IH|].
    apply Forall_seqZ. intros; lia.
Qed.

Lemma StronglySorted_filter {A : Type} (R : relation A) (P : A → Prop)
  `{!∀ x, Decision (P x)} (l : list A) :
  StronglySorted R l → StronglySorted R (filter P l).
Proof.
  induction 1 as [|x l Hl IH Hx].
  - constructor.
  - rewrite filter_cons. destruct (decide (P x)); [|done].
    constructor; [done|].
    apply Forall_forall. intros y [_ Hy]%list_elem_of_filter.
    rewrite Forall_forall in Hx. auto.
Qed.

Lemma StronglySorted_lt_le (l : list Z) :
  StronglySorted Z.lt l → StronglySorted Z.le l.
Proof.
  induction 1 as [|x l Hl IH Hx]; constructor; [done|].
  eapply Forall_impl; [exact Hx|]. intros; simpl in *; lia.
Qed.

Lemma free_of_sorted n fixed : StronglySorted Z.lt (free_of n fixed).
Proof. apply StronglySorted_filter, StronglySorted_seqZ. Qed.

Lemma elem_of_free_of n fixed i :
  i ∈ free_of n fixed ↔ ((i ∉ fixed) ∧ 0 ≤ i < Z.of_nat n).
Proof.
  unfold free_of. rewrite list_elem_of_filter, elem_of_seqZ. intuition lia.
Qed.

Lemma NoDup_free_of n fixed : NoDup (free_of n fixed).
Proof. apply NoDup_filter, NoDup_seqZ. Qed.

(** [sorted(set(range) - set(fixed))] is the range with the fixed indices
    struck out. *)
Lemma x_free_indices_free_of s :
  x_free_indices s = free_of (dim_full s) (x_fixed_indices s).
Proof.
  unfold x_free_indices.
  apply (Sorted_unique Z.le).
  - apply Sorted_merge_sort. intros x y. lia.
  - apply StronglySorted_Sorted, StronglySorted_lt_le, free_of_sorted.
  - rewrite merge_sort_Permutation.
    apply NoDup_Permutation; [apply NoDup_elements|apply NoDup_free_of|].
    intros i. rewrite elem_of_elements, elem_of_difference,
      !elem_of_list_to_set, elem_of_free_of, elem_of_seqZ. intuition lia.
Qed.

Lemma elem_of_x_free_indices s i :
  i ∈ x_free_indices s ↔
  ((i ∉ x_fixed_indices s) ∧ 0 ≤ i < Z.of_nat (dim_full s)).
Proof. rewrite x_free_indices_free_of. apply elem_of_free_of. Qed.

Lemma length_free_of n fixed :
  NoDup fixed → (∀ i, i ∈ fixed → 0 ≤ i < Z.of_nat n) →
  (length (free_of n fixed) + length fixed)%nat = n.
Proof.
  intros Hnd Hin.
  assert (filter (λ i : Z, ¬ (i ∉ fixed)) (seqZ 0 (Z.of_nat n)) ≡ₚ fixed) as Hp.
  { apply NoDup_Permutation; [apply NoDup_filter, NoDup_seqZ|done|].
    intros i. rewrite list_elem_of_filter, elem_of_seqZ.
    split; [intros [? _]; by destruct (decide (i ∈ fixed))|].
    intros Hi. split; [tauto|]. specialize (Hin i Hi). lia. }
  rewrite <-Hp at 2. unfold free_of. rewrite <-length_app.
  rewrite (filter_app_complement (λ i : Z, i ∉ fixed)).
  rewrite length_seqZ. lia.
Qed.

Lemma length_x_free_indices s :
  valid_partition s → Z.of_nat (length (x_free_indices s)) = dim s.
Proof.
  intros [Hnd Hin]. rewrite Forall_forall in Hin. unfold dim.
  pose proof (length_free_of (dim_full s) _ Hnd Hin).
  rewrite x_free_indices_free_of. lia.
Qed.

(** C1.  When the fixed indices are distinct and lie in [[0, dim_full)],
    the free and the fixed indices are disjoint, together they are exactly
    [{0, ..., dim_full - 1}], the free indices are in ascending order, and
    [dim + len(x_fixed_indices) = dim_full]. *)
Theorem free_fixed_partition (s : Problem) :
  valid_partition s →
  (list_to_set (x_free_indices s) : gset Z) ## list_to_set (x_fixed_indices s)
  ∧ (list_to_set (x_free_indices s) : gset Z)
      ∪ list_to_set (x_fixed_indices s)
    = list_to_set (seqZ 0 (Z.of_nat (dim_full s)))
  ∧ StronglySorted Z.lt (x_free_indices s)
  ∧ dim s + Z.of_nat (length (x_fixed_indices s)) = Z.of_nat (dim_full s).
Proof.
  intros [Hnd Hin]. rewrite Forall_forall in Hin. repeat split.
  - intros i. rewrite !elem_of_list_to_set, elem_of_x_free_indices. tauto.
  - apply set_eq. intros i.
    rewrite elem_of_union, !elem_of_list_to_set, elem_of_x_free_indices,
      elem_of_seqZ.
    split.
    + intros [[_ ?]|Hi]; [lia|]. apply Hin in Hi. lia.
    + intros ?. destruct (decide (i ∈ x_fixed_indices s)); [by right|left].
      split; [done|lia].
  - rewrite x_free_indices_free_of. apply free_of_sorted.
  - unfold dim. lia.
Qed.

(** ** Fancy indexing *)

Lemma bind_Ok {A B : Type} (r : result A) (k : A → result B) (b : B) :
  (r ≫= k) = Ok b ↔ ∃ a, r = Ok a ∧ k a = Ok b.
Proof.
  destruct r as [a|e]; simpl; split.
  - intros H. by exists a.
  - by intros (a' & [= ->] & H).
  - done.
  - by intros (a' & [=] & _).
Qed.

Lemma index_nonneg (n : nat) (i : Z) :
  0 ≤ i < Z.of_nat n → np.index n i = Ok (Z.to_nat i).
Proof. intros H. unfold np.index. by rewrite decide_True. Qed.

Lemma index_Ok_nonneg (n : nat) (i : Z) (k : nat) :
  0 ≤ i → np.index n i = Ok k → k = Z.to_nat i ∧ (k < n)%nat.
Proof.
  intros Hi. unfold np.index. repeat case_decide; intros [= <-]; lia.
Qed.

Lemma index_Ok_lt (n : nat) (i : Z) (k : nat) :
  np.index n i = Ok k → (k < n)%nat.
Proof. unfold np.index. repeat case_decide; intros [= <-]; lia. Qed.

Lemma scatter_length a idx vs a' :
  np.scatter a idx vs = Ok a' → length a' = length a.
Proof.
  revert a vs. induction idx as [|i idx IH]; intros a [|v vs]; simpl;
    try by intros [= <-].
  intros (k & _ & H)%bind_Ok. apply IH in H. by rewrite length_insert in H.
Qed.

(** A cell that no index names keeps its content. *)
Lemma scatter_lookup_ne a idx vs a' (k : nat) :
  (∀ i, i ∈ idx → 0 ≤ i) → Z.of_nat k ∉ idx →
  np.scatter a idx vs = Ok a' → a' !! k = a !! k.
Proof.
  revert a vs. induction idx as [|i idx IH]; intros a [|v vs] Hpos Hk; simpl;
    try by intros [= <-].
  intros (j & Hj & H)%bind_Ok.
  apply index_Ok_nonneg in Hj as [-> _]; [|apply Hpos; left].
  rewrite (IH _ _ (λ i' Hi', Hpos i' (list_elem_of_further _ _ _ Hi'))
             (λ Hin, Hk (list_elem_of_further _ _ _ Hin)) H).
  apply list_lookup_insert_ne. intros <-. apply Hk.
  rewrite Z2Nat.id by (apply Hpos; left). left.
Qed.

(** A cell named once holds the value paired with its index. *)
Lemma scatter_lookup a idx vs a' (j : nat) (i : Z) (v : float) :
  NoDup idx → (∀ i, i ∈ idx → 0 ≤ i) →
  np.scatter a idx vs = Ok a' →
  idx !! j = Some i → vs !! j = Some v → a' !! Z.to_nat i = Some v.
Proof.
  revert a vs j. induction idx as [|i0 idx IH]; intros a [|v0 vs] j Hnd Hpos;
    simpl; try done.
  intros (k & Hk & H)%bind_Ok Hi Hv.
  apply NoDup_cons in Hnd as [Hi0 Hnd].
  assert (∀ i', i' ∈ idx → 0 ≤ i') as Hpos'.
  { intros i' Hi'. apply Hpos. by right. }
  destruct j as [|j]; simpl in *.
  - injection Hi as ->. injection Hv as ->.
    apply index_Ok_nonneg in Hk as [-> Hlt]; [|apply Hpos; left].
    rewrite (scatter_lookup_ne _ _ _ _ (Z.to_nat i) Hpos' ltac:(rewrite Z2Nat.id; [done|apply Hpos; left]) H).
    by apply list_lookup_insert_eq.
  - by eapply IH.
Qed.

Lemma scatter_succeeds a idx vs :
  (∀ i, i ∈ idx → 0 ≤ i < Z.of_nat (length a)) →
  succeeds (np.scatter a idx vs).
Proof.
  revert a vs. induction idx as [|i idx IH]; intros a [|v vs] Hin; simpl;
    try by eexists.
  rewrite index_nonneg by (apply Hin; left). simpl.
  apply IH. intros i' Hi'. rewrite length_insert. apply Hin. by right.
Qed.

(** Reading at in-range indices gives the cells, in the order asked. *)
Lemma take_Ok a idx vs :
  (∀ i, i ∈ idx → 0 ≤ i) →
  length vs = length idx →
  (∀ j i, idx !! j = Some i → a !! Z.to_nat i = vs !! j) →
  np.take a idx = Ok vs.
Proof.
  revert vs. induction idx as [|i idx IH]; intros [|v vs] Hpos Hlen Hcells;
    simpl in *; try done.
  pose proof (Hcells 0%nat i eq_refl) as H0. simpl in H0.
  rewrite index_nonneg.
  2:{ split; [apply Hpos; left|]. apply lookup_lt_Some in H0. lia. }
  simpl. rewrite H0.
  rewrite (IH vs); [done| |lia|].
  - intros i' Hi'. apply Hpos. by right.
  - intros j i' Hj. apply (Hcells (S j) i' Hj).
Qed.

Lemma take_length a idx vs : np.take a idx = Ok vs → length vs = length idx.
Proof.
  revert vs. induction idx as [|i idx IH]; intros vs; simpl.
  - by intros [= <-].
  - intros (k & _ & H)%bind_Ok. destruct (a !! k); [|done].
    apply bind_Ok in H as (xs & Hxs & [= <-]). simpl. f_equal. by apply IH.
Qed.

Lemma broadcast_same vs n : length vs = n → np.broadcast vs n = Ok vs.
Proof. intros H. unfold np.broadcast. by rewrite decide_True. Qed.

Lemma broadcast_length vs n vs' :
  np.broadcast vs n = Ok vs' → length vs' = n.
Proof.
  unfold np.broadcast. case_decide; [by intros [= <-]|].
  destruct vs as [|v [|]]; try done. intros [= <-]. apply length_replicate.
Qed.

(** Writing a reduced vector at distinct in-range indices and reading the
    same indices back returns the vector, whatever is written afterwards
    at other indices. *)
Lemma take_put_put a idx x a1 idx2 a2 vs2 :
  NoDup idx → (∀ i, i ∈ idx → 0 ≤ i) → (∀ i, i ∈ idx2 → 0 ≤ i) →
  (∀ i, i ∈ idx → i ∉ idx2) →
  length x = length idx →
  np.put a idx x = Ok a1 →
  np.scatter a1 idx2 vs2 = Ok a2 →
  np.take a2 idx = Ok x.
Proof.
  intros Hnd Hpos Hpos2 Hdisj Hlen Hput Hsc.
  unfold np.put in Hput. rewrite broadcast_same in Hput by done.
  simpl in Hput.
  apply take_Ok; [done..|].
  intros j i Hj.
  rewrite (scatter_lookup_ne _ _ _ _ (Z.to_nat i) Hpos2 ltac:(rewrite Z2Nat.id; [apply Hdisj|apply Hpos]; by eapply list_elem_of_lookup_2) Hsc).
  destruct (x !! j) as [v|] eqn:Hv.
  - eapply scatter_lookup; eauto.
  - apply lookup_ge_None in Hv. apply lookup_lt_Some in Hj. lia.
Qed.

(** ** Round trip on the free subspace *)

Lemma length_nan_vector n : length (nan_vector n) = n.
Proof. unfold nan_vector. by rewrite length_fmap, length_replicate. Qed.

Lemma lookup_nan_vector n k : (k < n)%nat → nan_vector n !! k = Some nan.
Proof.
  intros H. unfold nan_vector.
  by rewrite list_lookup_fmap, lookup_replicate_2.
Qed.

Lemma NoDup_x_free_indices s : NoDup (x_free_indices s).
Proof. rewrite x_free_indices_free_of. apply NoDup_free_of. Qed.

Lemma x_free_indices_range s i :
  i ∈ x_free_indices s → 0 ≤ i < Z.of_nat (dim_full s).
Proof. rewrite elem_of_x_free_indices. tauto. Qed.

Lemma put_succeeds a idx vs :
  (∀ i, i ∈ idx → 0 ≤ i < Z.of_nat (length a)) →
  length vs = length idx →
  succeeds (np.put a idx vs).
Proof.
  intros Hin Hlen. unfold np.put. rewrite broadcast_same by done. simpl.
  by apply scatter_succeeds.
Qed.

Lemma put_length a idx vs a' : np.put a idx vs = Ok a' → length a' = length a.
Proof.
  unfold np.put. intros (vs' & _ & H)%bind_Ok. by apply scatter_length in H.
Qed.

(** The vector case of [get_full_vector], past the length test. *)
Lemma get_full_vector_scatter s x f :
  length x ≠ dim_full s →
  get_full_vector s (Some (Arr1 x)) f =
    (a1 ← np.put (nan_vector (dim_full s)) (x_free_indices s) x;
     a2 ← match f with
          | Some v => np.put a1 (x_fixed_indices s) v
          | None => Ok a1
          end;
     Ok (Some (Arr1 a2))).
Proof. intros H. unfold get_full_vector. simpl. by rewrite decide_False. Qed.

(** C3.  For a valid partition and a reduced vector [x] of length [dim]:
    whatever fill [f] is passed, a result of [get_full_vector] is mapped
    back to [x] by [get_reduced_vector]; and [get_full_vector] does return
    a result when [f] is absent or has one value per fixed index. *)
Theorem reduced_of_full_is_identity (s : Problem) (x : list float) :
  valid_partition s →
  Z.of_nat (length x) = dim s →
  (∀ f y, get_full_vector s (Some (Arr1 x)) f = Ok y →
          get_reduced_vector s y = Ok (Some (Arr1 x)))
  ∧ (∀ f, fill_fits s f →
          (get_full_vector s (Some (Arr1 x)) f ≫= get_reduced_vector s)
          = Ok (Some (Arr1 x))).
Proof.
  intros Hvalid Hlen.
  pose proof (length_x_free_indices s Hvalid) as Hfree.
  destruct Hvalid as [Hnd Hin]. rewrite Forall_forall in Hin.
  assert (∀ f y, get_full_vector s (Some (Arr1 x)) f = Ok y →
                 get_reduced_vector s y = Ok (Some (Arr1 x))) as Hback.
  { intros f y.
    destruct (decide (length x = dim_full s)) as [Heq|Hne].
    { unfold get_full_vector. simpl. rewrite decide_True by done.
      intros [= <-]. unfold get_reduced_vector. simpl.
      by rewrite decide_True. }
    rewrite get_full_vector_scatter by done.
    intros (a1 & Ha1 & (a2 & Ha2 & [= <-])%bind_Ok)%bind_Ok.
    assert (∃ vs, np.scatter a1 (x_fixed_indices s) vs = Ok a2) as [vs Hsc].
    { destruct f as [v|].
      - unfold np.put in Ha2. apply bind_Ok in Ha2 as (vs & _ & ?). eauto.
      - injection Ha2 as <-. exists []. by destruct (x_fixed_indices s). }
    assert (length a2 = dim_full s) as Hlen2.
    { apply scatter_length in Hsc. apply put_length in Ha1.
      rewrite Hsc, Ha1. apply length_nan_vector. }
    unfold get_reduced_vector. simpl.
    rewrite decide_False by lia.
    rewrite (take_put_put (nan_vector (dim_full s)) (x_free_indices s) x a1
               (x_fixed_indices s) a2 vs); try done.
    - apply NoDup_x_free_indices.
    - intros i Hi. apply x_free_indices_range in Hi. lia.
    - intros i Hi. apply Hin in Hi. lia.
    - intros i Hi. by apply elem_of_x_free_indices in Hi as [? _].
    - lia. }
  split; [done|].
  intros f Hf.
  assert (succeeds (get_full_vector s (Some (Arr1 x)) f)) as [y Hy].
  { destruct (decide (length x = dim_full s)) as [Heq|Hne].
    { unfold get_full_vector. simpl. rewrite decide_True by done.
      by eexists. }
    rewrite get_full_vector_scatter by done.
    destruct (put_succeeds (nan_vector (dim_full s)) (x_free_indices s) x)
      as [a1 Ha1].
    { intros i Hi. rewrite length_nan_vector.
      by apply x_free_indices_range. }
    { lia. }
    rewrite Ha1. simpl. destruct f as [v|]; [|by eexists].
    destruct (put_succeeds a1 (x_fixed_indices s) v) as [a2 Ha2].
    { intros i Hi. apply put_length in Ha1.
      rewrite Ha1, length_nan_vector. by apply Hin. }
    { done. }
    rewrite Ha2. by eexists. }
  rewrite Hy. simpl. by apply (Hback f).
Qed.

(** ** [full_index_to_free_index] *)

Lemma wrap64_int64 z : int64 z → wrap64 z = z.
Proof.
  unfold int64, wrap64. intros Hz.
  rewrite Z.mod_small by lia. lia.
Qed.

(** As long as the count stays below [2^63] no addition wraps. *)
Lemma sum_less_count fixed i :
  count_less fixed i < 2 ^ 63 → sum_less fixed i = count_less fixed i.
Proof.
  unfold sum_less, count_less.
  assert (∀ acc, 0 ≤ acc →
            acc + Z.of_nat (length (filter (λ j, j < i) fixed)) < 2 ^ 63 →
            foldl (λ acc j, wrap64 (acc + (if decide (j < i) then 1 else 0)))
              acc fixed
            = acc + Z.of_nat (length (filter (λ j, j < i) fixed))) as H.
  { induction fixed as [|j fixed IH]; intros acc Hacc Hlt; simpl; [lia|].
    rewrite filter_cons in Hlt |- *.
    destruct (decide (j < i)); simpl in *.
    - rewrite wrap64_int64 by (unfold int64; lia).
      rewrite IH by lia. lia.
    - rewrite wrap64_int64 by (unfold int64; lia).
      rewrite IH by lia. lia. }
  intros Hlt. rewrite H by lia. lia.
Qed.

(** Within [int64] the result is the index minus the count. *)
Lemma full_index_to_free_index_fits s i :
  i ∉ x_fixed_indices s → fits_int64 (x_fixed_indices s) i →
  full_index_to_free_index s i = Ok (i - count_less (x_fixed_indices s) i).
Proof.
  intros Hi (Hint & Hcount & Hres). unfold full_index_to_free_index.
  rewrite decide_False by done.
  destruct (x_fixed_indices s) as [|j fixed] eqn:Hfixed; [done|].
  rewrite decide_True by done. rewrite sum_less_count by done.
  rewrite wrap64_int64; [done|].
  unfold int64, count_less in *. lia.
Qed.

Lemma scenario_B_state : scenario_B = Ok state_B.
Proof. vm_compute. reflexivity. Qed.

Lemma valid_partition_state_B : valid_partition state_B.
Proof. apply (bool_decide_unpack _). vm_compute. exact I. Defined.

Lemma filter_ext_elem {A : Type} (P1 P2 : A → Prop)
  `{!∀ x, Decision (P1 x), !∀ x, Decision (P2 x)} (l : list A) :
  (∀ x, x ∈ l → P1 x ↔ P2 x) → filter P1 l = filter P2 l.
Proof.
  induction l as [|x l IH]; intros Hext; [done|].
  rewrite !filter_cons.
  rewrite IH by (intros y Hy; apply Hext; by right).
  pose proof (Hext x ltac:(left)) as Hx.
  destruct (decide (P1 x)), (decide (P2 x)); tauto.
Qed.

(** The free indices below [i] are as many as [i] minus the fixed indices
    below [i]. *)
Lemma length_free_of_below n fixed i :
  NoDup fixed → (∀ j, j ∈ fixed → 0 ≤ j < Z.of_nat n) →
  0 ≤ i →
  Z.of_nat (length (filter (λ j, j ∉ fixed) (seqZ 0 i)))
  = i - count_less fixed i.
Proof.
  intros Hnd Hin Hi. unfold count_less.
  pose proof (length_free_of (Z.to_nat i) (filter (λ j, j < i) fixed)
                (NoDup_filter _ _ Hnd)) as Hlen.
  unfold free_of in Hlen. rewrite Z2Nat.id in Hlen by done.
  rewrite (filter_ext_elem (λ j, j ∉ fixed)
             (λ j, j ∉ filter (λ j, j < i) fixed)).
  - assert (∀ j, j ∈ filter (λ j, j < i) fixed → 0 ≤ j < i) as Hbelow.
    { intros j [? Hj]%list_elem_of_filter. apply Hin in Hj. lia. }
    specialize (Hlen Hbelow). lia.
  - intros j Hj%elem_of_seqZ. rewrite list_elem_of_filter.
    split; [tauto|]. intros H ?. apply H. split; [lia|done].
Qed.

(** For a free index, [full_index_to_free_index] is its position among
    the free indices. *)
Lemma full_index_to_free_index_position s i :
  valid_partition s → Z.of_nat (dim_full s) ≤ 2 ^ 63 →
  i ∈ x_free_indices s →
  ∃ k : nat, full_index_to_free_index s i = Ok (Z.of_nat k)
             ∧ x_free_indices s !! k = Some i.
Proof.
  intros [Hnd Hin] Hbound [Hfree Hrange]%elem_of_x_free_indices.
  rewrite Forall_forall in Hin.
  exists (length (filter (λ j, j ∉ x_fixed_indices s) (seqZ 0 i))).
  split.
  - pose proof (length_free_of_below (dim_full s) (x_fixed_indices s) i
                  Hnd Hin ltac:(lia)) as Hpos.
    rewrite full_index_to_free_index_fits; [by rewrite Hpos|done|].
    unfold fits_int64, int64. lia.
  - rewrite x_free_indices_free_of. unfold free_of.
    replace (Z.of_nat (dim_full s)) with (i + (Z.of_nat (dim_full s) - i))
      by lia.
    rewrite seqZ_app by lia. rewrite (seqZ_cons (0 + i)) by lia.
    rewrite filter_app, filter_cons_True by (by rewrite Z.add_0_l).
    rewrite Z.add_0_l. by apply list_lookup_middle.
Qed.

(** C4.  [full_index_to_free_index] raises its [ValueError] exactly for the
    indices that are fixed.  For any other index it returns the index minus
    the number of fixed indices strictly below it, provided the index, that
    number and the result are values of an [int64]; with a fixed index
    present, an index that is no [int64] raises [OverflowError].  In
    scenario B (fixed indices [[1]]) index 1 raises and index 2 is mapped
    to 1. *)
Theorem full_index_to_free_index_spec (s : Problem) (i : Z) :
  ((∃ msg, full_index_to_free_index s i = Raise (ValueError msg))
     ↔ i ∈ x_fixed_indices s)
  ∧ (i ∉ x_fixed_indices s → fits_int64 (x_fixed_indices s) i →
     full_index_to_free_index s i = Ok (i - count_less (x_fixed_indices s) i))
  ∧ (i ∉ x_fixed_indices s → x_fixed_indices s ≠ [] → ¬ int64 i →
     full_index_to_free_index s i
     = Raise (OverflowError "Python integer out of bounds for int64"))
  ∧ raises (full_index_to_free_index state_B 1)
  ∧ full_index_to_free_index state_B 2 = Ok 1.
Proof.
  split; [|split; [|split; [|split]]].
  - unfold full_index_to_free_index. split.
    + intros [msg H]. case_decide; [done|].
      destruct (x_fixed_indices s); [done|]. by case_decide.
    + intros H. rewrite decide_True by done. by eexists.
  - apply full_index_to_free_index_fits.
  - intros Hi Hne Hint. unfold full_index_to_free_index.
    rewrite decide_False by done.
    destruct (x_fixed_indices s); [done|]. by rewrite decide_False.
  - by eexists.
  - vm_compute. reflexivity.
Qed.

Lemma full_index_to_free_index_spec_witness :
  (2 ∉ x_fixed_indices state_B) ∧ fits_int64 (x_fixed_indices state_B) 2
  ∧ full_index_to_free_index state_B 2
    = Ok (2 - count_less (x_fixed_indices state_B) 2).
Proof.
  assert (2 ∉ x_fixed_indices state_B) as H.
  { apply (bool_decide_unpack _). vm_compute. exact I. }
  assert (fits_int64 (x_fixed_indices state_B) 2) as Hfits.
  { apply (bool_decide_unpack _). vm_compute. exact I. }
  split; [exact H|]. split; [exact Hfits|].
  exact (proj1 (proj2 (full_index_to_free_index_spec state_B 2)) H Hfits).
Defined.

(** C4, as first stated, fails beyond [int64]: in scenario B the index
    [2^63] is not fixed, and the call does not return [2^63] minus the
    count, it raises [OverflowError]. *)
Lemma full_index_to_free_index_spec_counterexample :
  (2 ^ 63 ∉ x_fixed_indices state_B)
  ∧ full_index_to_free_index state_B (2 ^ 63)
    ≠ Ok (2 ^ 63 - count_less (x_fixed_indices state_B) (2 ^ 63))
  ∧ full_index_to_free_index state_B (2 ^ 63)
    = Raise (OverflowError "Python integer out of bounds for int64").
Proof.
  split; [|split].
  - apply (bool_decide_unpack _). vm_compute. exact I.
  - vm_compute. discriminate.
  - vm_compute. reflexivity.
Qed.

(** C10.  [full_index_to_free_index] checks no range against [dim_full]:
    for an index that is not fixed it returns the index minus the number
    of fixed indices below it, also when the index is negative or at least
    [dim_full], where the index is at no position of the free indices;
    this as long as the index, that number and the result are values of an
    [int64]. *)
Theorem full_index_to_free_index_no_range_check (s : Problem) (i : Z) :
  i ∉ x_fixed_indices s → fits_int64 (x_fixed_indices s) i →
  full_index_to_free_index s i = Ok (i - count_less (x_fixed_indices s) i)
  ∧ (¬ (0 ≤ i < Z.of_nat (dim_full s)) →
     ∀ k : nat, x_free_indices s !! k ≠ Some i).
Proof.
  intros Hi Hfits. split.
  - by apply full_index_to_free_index_fits.
  - intros Hout k Hk. apply list_elem_of_lookup_2 in Hk.
    apply x_free_indices_range in Hk. lia.
Qed.

Lemma full_index_to_free_index_no_range_check_witness :
  full_index_to_free_index state_B (-4) = Ok (-4)
  ∧ full_index_to_free_index state_B 7 = Ok 6
  ∧ ∀ k : nat, x_free_indices state_B !! k ≠ Some 7.
Proof.
  assert (-4 ∉ x_fixed_indices state_B) as Hneg.
  { apply (bool_decide_unpack _). vm_compute. exact I. }
  assert (7 ∉ x_fixed_indices state_B) as Hbig.
  { apply (bool_decide_unpack _). vm_compute. exact I. }
  assert (fits_int64 (x_fixed_indices state_B) (-4)) as Hfneg.
  { apply (bool_decide_unpack _). vm_compute. exact I. }
  assert (fits_int64 (x_fixed_indices state_B) 7) as Hfbig.
  { apply (bool_decide_unpack _). vm_compute. exact I. }
  split; [|split].
  - exact (proj1 (full_index_to_free_index_no_range_check state_B (-4)
                    Hneg Hfneg)).
  - exact (proj1 (full_index_to_free_index_no_range_check state_B 7
                    Hbig Hfbig)).
  - apply (proj2 (full_index_to_free_index_no_range_check state_B 7
                    Hbig Hfbig)).
    simpl. lia.
Defined.

(** C10, as first stated, fails beyond [int64]: in scenario B the index
    [2^63] is not fixed and the call raises an error. *)
Lemma full_index_to_free_index_no_range_check_counterexample :
  (2 ^ 63 ∉ x_fixed_indices state_B)
  ∧ raises (full_index_to_free_index state_B (2 ^ 63)).
Proof.
  split.
  - apply (bool_decide_unpack _). vm_compute. exact I.
  - eexists. vm_compute. reflexivity.
Qed.

Lemma free_fixed_partition_witness :
  valid_partition state_B
  ∧ x_free_indices state_B = [0; 2]
  ∧ dim state_B + Z.of_nat (length (x_fixed_indices state_B)) = 3.
Proof.
  pose proof (free_fixed_partition state_B valid_partition_state_B)
    as (_ & _ & _ & H).
  split; [exact valid_partition_state_B|]. split; [|exact H].
  vm_compute. reflexivity.
Defined.

Lemma reduced_of_full_is_identity_witness :
  valid_partition state_B
  ∧ Z.of_nat (length [fl 10 0; fl 20 0]) = dim state_B
  ∧ (get_full_vector state_B (Some (Arr1 [fl 10 0; fl 20 0]))
       (Some [fl 1 (-1)]) ≫= get_reduced_vector state_B)
    = Ok (Some (Arr1 [fl 10 0; fl 20 0])).
Proof.
  split; [exact valid_partition_state_B|]. split; [reflexivity|].
  apply (reduced_of_full_is_identity state_B [fl 10 0; fl 20 0]
           valid_partition_state_B eq_refl).
  reflexivity.
Defined.

(** ** [normalize]: what the steps establish *)

Lemma bind_Raise {A B : Type} (r : result A) (k : A → result B) (e : exn) :
  (r ≫= k) = Raise e ↔ r = Raise e ∨ ∃ a, r = Ok a ∧ k a = Raise e.
Proof.
  destruct r as [a|e']; simpl; split.
  - intros H. right. by exists a.
  - by intros [[=]|(a' & [= ->] & H)].
  - intros [= ->]. by left.
  - by intros [[= ->]|(a' & [=] & _)].
Qed.

Lemma raises_numpy_bind {A B : Type} (r : result A) (k : A → result B) :
  raises_numpy r → (∀ a, r = Ok a → raises_numpy (k a)) →
  raises_numpy (r ≫= k).
Proof.
  intros Hr Hk e [He|(a & Ha & He)]%bind_Raise; [by apply Hr|].
  by apply (Hk a Ha).
Qed.

Lemma raises_numpy_Ok {A : Type} (a : A) : raises_numpy (Ok a).
Proof. by intros e [=]. Qed.

Lemma raises_numpy_index n i : raises_numpy (np.index n i).
Proof. unfold np.index. intros e. repeat case_decide; by intros [= <-]. Qed.

Lemma raises_numpy_take a idx : raises_numpy (np.take a idx).
Proof.
  induction idx as [|i idx IH]; simpl; [apply raises_numpy_Ok|].
  apply raises_numpy_bind; [apply raises_numpy_index|]. intros k _.
  destruct (a !! k); [|by intros e [= <-]].
  apply raises_numpy_bind; [done|]. intros; apply raises_numpy_Ok.
Qed.

Lemma raises_numpy_scatter a idx vs : raises_numpy (np.scatter a idx vs).
Proof.
  revert a vs. induction idx as [|i idx IH]; intros a [|v vs]; simpl;
    try apply raises_numpy_Ok.
  apply raises_numpy_bind; [apply raises_numpy_index|]. intros; apply IH.
Qed.

Lemma raises_numpy_broadcast vs n : raises_numpy (np.broadcast vs n).
Proof.
  unfold np.broadcast. case_decide; [apply raises_numpy_Ok|].
  destruct vs as [|v [|]]; intros e; by intros [= <-].
Qed.

Lemma raises_numpy_put a idx vs : raises_numpy (np.put a idx vs).
Proof.
  apply raises_numpy_bind; [apply raises_numpy_broadcast|].
  intros; apply raises_numpy_scatter.
Qed.

Lemma raises_numpy_mapM {A B : Type} (f : A → result B) (l : list A) :
  (∀ x, raises_numpy (f x)) → raises_numpy (mapM f l).
Proof.
  intros Hf. induction l as [|x l IH]; simpl; [apply raises_numpy_Ok|].
  apply raises_numpy_bind; [apply Hf|]. intros y _.
  apply raises_numpy_bind; [apply IH|]. intros; apply raises_numpy_Ok.
Qed.

Lemma raises_numpy_put_cols g idx m : raises_numpy (np2.put_cols g idx m).
Proof.
  unfold np2.put_cols. case_decide; [|by intros e [= <-]].
  apply raises_numpy_bind.
  - apply raises_numpy_mapM. intros; apply raises_numpy_put.
  - intros; apply raises_numpy_Ok.
Qed.

Lemma set_lb_full_id s : set_lb_full (lb_full s) s = s.
Proof. by destruct s. Qed.

Lemma set_ub_full_id s : set_ub_full (ub_full s) s = s.
Proof. by destruct s. Qed.

Lemma set_x_guesses_full_id s : set_x_guesses_full (x_guesses_full s) s = s.
Proof. by destruct s. Qed.

Lemma set_fixed_id s : set_fixed (x_fixed_indices s) (x_fixed_vals s) s = s.
Proof. by destruct s. Qed.

Lemma length_empty junk n : length (np.empty junk n) = n.
Proof. unfold np.empty. by rewrite length_fmap, length_seq. Qed.

Lemma length_mul_ones a n : length a = 1%nat → length (np.mul_ones a n) = n.
Proof. destruct a as [|x [|]]; try done. intros _. apply length_replicate. Qed.

(** [normalize_lb] replaces [lb_full], by an array of length [dim_full]. *)
Lemma normalize_lb_Ok junk s s' :
  normalize_lb junk s = Ok s' →
  ∃ a, s' = set_lb_full a s ∧ length a = dim_full s.
Proof.
  unfold normalize_lb. repeat case_decide.
  - intros [= <-]. eexists; split; [done|]. by apply length_mul_ones.
  - intros (r & _ & (a1 & Ha1 & (a2 & Ha2 & [= <-])%bind_Ok)%bind_Ok)%bind_Ok.
    simpl in *. exists a2. split; [done|].
    apply put_length in Ha2, Ha1. rewrite Ha2, Ha1. apply length_empty.
  - intros [= <-]. exists (lb_full s). rewrite set_lb_full_id.
    split; [done|]. by destruct (decide (length (lb_full s) = dim_full s)).
Qed.

Lemma normalize_ub_Ok junk s s' :
  normalize_ub junk s = Ok s' →
  ∃ a, s' = set_ub_full a s ∧ length a = dim_full s.
Proof.
  unfold normalize_ub. repeat case_decide.
  - intros [= <-]. eexists; split; [done|]. by apply length_mul_ones.
  - intros (r & _ & (a1 & Ha1 & (a2 & Ha2 & [= <-])%bind_Ok)%bind_Ok)%bind_Ok.
    simpl in *. exists a2. split; [done|].
    apply put_length in Ha2, Ha1. rewrite Ha2, Ha1. apply length_empty.
  - intros [= <-]. exists (ub_full s). rewrite set_ub_full_id.
    split; [done|]. by destruct (decide (length (ub_full s) = dim_full s)).
Qed.

Lemma put_cols_ncols g idx m g' :
  np2.put_cols g idx m = Ok g' → ncols g' = ncols g.
Proof.
  unfold np2.put_cols. case_decide; [|done].
  by intros (rs & _ & [= <-])%bind_Ok.
Qed.

Lemma normalize_guesses_Ok junk s s' :
  normalize_guesses junk s = Ok s' →
  ∃ g, s' = set_x_guesses_full g s ∧ ncols g = dim_full s.
Proof.
  unfold normalize_guesses. case_decide as Hw.
  - intros (g & Hg & [= <-])%bind_Ok. exists g. split; [done|].
    by apply put_cols_ncols in Hg.
  - intros [= <-]. exists (x_guesses_full s).
    rewrite set_x_guesses_full_id. split; [done|].
    by destruct (decide (ncols (x_guesses_full s) = dim_full s)).
Qed.

Lemma raises_numpy_normalize_steps junk s :
  raises_numpy (normalize_steps junk s).
Proof.
  unfold normalize_steps.
  apply raises_numpy_bind.
  { unfold normalize_lb. repeat case_decide; try apply raises_numpy_Ok.
    apply raises_numpy_bind; [apply raises_numpy_take|]. intros r _.
    apply raises_numpy_bind; [apply raises_numpy_put|]. intros a1 _.
    apply raises_numpy_bind; [apply raises_numpy_put|]. intros a2 _.
    apply raises_numpy_Ok. }
  intros s1 _. apply raises_numpy_bind.
  { unfold normalize_ub. repeat case_decide; try apply raises_numpy_Ok.
    apply raises_numpy_bind; [apply raises_numpy_take|]. intros r _.
    apply raises_numpy_bind; [apply raises_numpy_put|]. intros a1 _.
    apply raises_numpy_bind; [apply raises_numpy_put|]. intros a2 _.
    apply raises_numpy_Ok. }
  intros s2 _. apply raises_numpy_bind.
  { unfold normalize_guesses. case_decide; [|apply raises_numpy_Ok].
    apply raises_numpy_bind; [apply raises_numpy_put_cols|].
    intros; apply raises_numpy_Ok. }
  intros; apply raises_numpy_Ok.
Qed.

(** After the steps the three arrays have full size; the partition, the
    names and the scales are as before. *)
Lemma normalize_steps_Ok junk s s' :
  normalize_steps junk s = Ok s' →
  ∃ a b g,
    s' = notify_objective
           (set_x_guesses_full g (set_ub_full b (set_lb_full a s)))
    ∧ length a = dim_full s ∧ length b = dim_full s ∧ ncols g = dim_full s.
Proof.
  unfold normalize_steps.
  intros (s1 & H1 & (s2 & H2 & (s3 & H3 & [= <-])%bind_Ok)%bind_Ok)%bind_Ok.
  apply normalize_lb_Ok in H1 as (a & -> & Ha).
  apply normalize_ub_Ok in H2 as (b & -> & Hb).
  apply normalize_guesses_Ok in H3 as (g & -> & Hg).
  by exists a, b, g.
Qed.

Lemma sanity_checks_Ok s : dimensions_agree s → sanity_checks s = Ok s.
Proof.
  intros (? & ? & ? & ? & ? & ?). unfold sanity_checks.
  by rewrite !decide_False by (intros ?; done).
Qed.

Lemma sanity_checks_Raise s :
  ncols (x_guesses_full s) = dim_full s → ¬ dimensions_agree s →
  ∃ msg, sanity_checks s = Raise (AssertionError msg).
Proof.
  intros Hg Hn. unfold sanity_checks. repeat case_decide; try by eexists.
  destruct Hn. unfold dimensions_agree.
  repeat split; try done; by apply dec_stable.
Qed.

Lemma normalize_Ok_iff junk s s' :
  normalize junk s = Ok s'
  ↔ normalize_steps junk s = Ok s' ∧ dimensions_agree s'.
Proof.
  unfold normalize. split.
  - intros (s1 & Hs1 & H)%bind_Ok.
    destruct (decide (dimensions_agree s1)) as [Hd|Hn].
    + rewrite sanity_checks_Ok in H by done. by injection H as <-.
    + apply normalize_steps_Ok in Hs1 as (a & b & g & -> & _ & _ & Hg).
      apply sanity_checks_Raise in Hn as [msg Hmsg]; [|done]. congruence.
  - intros [Hs' Hd]. rewrite Hs'. simpl. by apply sanity_checks_Ok.
Qed.

(** C7.  [normalize] raises the [AssertionError] of its sanity checks
    exactly when the steps before them went through and, after them, one of
    these fails: [lb_full], [ub_full], [x_scales], [x_names] have length
    [dim_full], the guesses have width [dim_full], and there are as many
    fixed values as fixed indices.  It returns exactly when the steps went
    through and all of them hold, and raises some error in every other
    case. *)
Theorem normalize_raises_iff (junk : nat → nat → float) (s : Problem) :
  ((∃ msg, normalize junk s = Raise (AssertionError msg))
     ↔ ∃ s', normalize_steps junk s = Ok s' ∧ ¬ dimensions_agree s')
  ∧ (∀ s', normalize junk s = Ok s'
           ↔ normalize_steps junk s = Ok s' ∧ dimensions_agree s')
  ∧ (raises (normalize junk s)
       ↔ ¬ ∃ s', normalize_steps junk s = Ok s' ∧ dimensions_agree s').
Proof.
  split; [|split].
  - unfold normalize. split.
    + intros [msg [H|(s' & Hs' & H)]%bind_Raise].
      { by apply raises_numpy_normalize_steps in H. }
      exists s'. split; [done|]. intros Hd.
      by rewrite sanity_checks_Ok in H.
    + intros (s' & Hs' & Hn). rewrite Hs'. simpl.
      apply sanity_checks_Raise; [|done].
      apply normalize_steps_Ok in Hs' as (a & b & g & -> & _ & _ & Hg).
      done.
  - intros s'. apply normalize_Ok_iff.
  - split.
    + intros [e He] (s' & Hs'). apply normalize_Ok_iff in Hs'. congruence.
    + intros Hn. destruct (normalize junk s) as [s'|e] eqn:Hr.
      * destruct Hn. exists s'. by apply normalize_Ok_iff.
      * by exists e.
Qed.

(** ** Reachable states *)

Lemma normalize_Ok_consistent junk s s' :
  normalize junk s = Ok s' → consistent s'.
Proof.
  intros [Hs Hd]%normalize_Ok_iff. split; [done|].
  by apply normalize_steps_Ok in Hs as (a & b & g & -> & _).
Qed.

Lemma normalize_Ok_x_names junk s s' :
  normalize junk s = Ok s' → x_names s' = x_names s.
Proof.
  intros [Hs _]%normalize_Ok_iff.
  by apply normalize_steps_Ok in Hs as (a & b & g & -> & _).
Qed.

Lemma normalize_Ok_dim_full junk s s' :
  normalize junk s = Ok s' → dim_full s' = dim_full s.
Proof.
  intros [Hs _]%normalize_Ok_iff.
  by apply normalize_steps_Ok in Hs as (a & b & g & -> & _).
Qed.

Lemma reachable_consistent s : reachable s → consistent s.
Proof.
  destruct 1 as [junk o lb ub d fi fv g names scales s H|junk s s' _ H
                |junk s pi pv s' _ H|junk s pi s' _ H].
  - unfold __init__ in H. case_decide; [done|].
    by eapply normalize_Ok_consistent.
  - by eapply normalize_Ok_consistent.
  - unfold fix_parameters in H. apply bind_Ok in H as ([fi fv] & _ & H).
    by eapply normalize_Ok_consistent.
  - unfold unfix_parameters in H. apply bind_Ok in H as ([fi fv] & _ & H).
    by eapply normalize_Ok_consistent.
Qed.

Lemma mul_ones_1 a : length a = 1%nat → np.mul_ones a 1 = a.
Proof. by destruct a as [|x [|]]. Qed.

Lemma notify_objective_id s :
  obj_partition (objective s) = Some (current_partition s) →
  notify_objective s = s.
Proof.
  destruct s as [[names p] ? ? ? ? ? ? ? ?]. simpl.
  unfold notify_objective, update_from_problem, set_objective,
    current_partition. simpl. by intros ->.
Qed.

(** On a state whose dimensions agree, [normalize] only notifies. *)
Lemma normalize_agree junk s :
  dimensions_agree s → normalize junk s = Ok (notify_objective s).
Proof.
  intros Hd. pose proof Hd as (Hlb & Hub & _ & _ & Hg & _).
  assert (normalize_steps junk s = Ok (notify_objective s)) as Hsteps.
  { unfold normalize_steps.
    assert (normalize_lb (junk 0%nat) s = Ok s) as ->.
    { unfold normalize_lb. case_decide as H1.
      - replace (dim_full s) with 1%nat by congruence.
        by rewrite mul_ones_1, set_lb_full_id.
      - by rewrite decide_False by (intros ?; done). }
    simpl.
    assert (normalize_ub (junk 1%nat) s = Ok s) as ->.
    { unfold normalize_ub. case_decide as H1.
      - replace (dim_full s) with 1%nat by congruence.
        by rewrite mul_ones_1, set_ub_full_id.
      - by rewrite decide_False by (intros ?; done). }
    simpl. unfold normalize_guesses.
    by rewrite decide_False by (intros ?; done). }
  apply normalize_Ok_iff. split; [done|]. exact Hd.
Qed.

Lemma normalize_consistent junk s : consistent s → normalize junk s = Ok s.
Proof.
  intros [Hd Hp]. rewrite normalize_agree by done.
  by rewrite notify_objective_id.
Qed.

(** ** Fixing and unfixing *)

Lemma py_index_elem_of i fi :
  i ∈ fi → ∃ k, py.index i fi = Ok k ∧ fi !! k = Some i.
Proof.
  induction fi as [|j fi IH]; [by intros ?%elem_of_nil|].
  intros Hi. simpl. case_decide as Hj.
  - exists 0%nat. by subst.
  - apply elem_of_cons in Hi as [->|Hi]; [done|].
    destruct (IH Hi) as (k & -> & Hk). by exists (S k).
Qed.

Lemma py_index_snoc i fi :
  i ∉ fi → py.index i (fi ++ [i])%list = Ok (length fi).
Proof.
  induction fi as [|j fi IH]; simpl; intros Hi.
  - by rewrite decide_True.
  - rewrite decide_False by (intros ->; apply Hi; left).
    rewrite IH; [done|]. intros ?. apply Hi. by right.
Qed.

(** Fixing one index keeps the two lists in step, and fixing it again at
    the same value changes nothing. *)
Lemma fix_loop_single i v fi fv :
  length fi = length fv →
  ∃ fi' fv',
    fix_loop [i] 0 [v] fi fv = Ok (fi', fv')
    ∧ length fi' = length fv'
    ∧ fix_loop [i] 0 [v] fi' fv' = Ok (fi', fv').
Proof.
  intros Hlen. simpl. destruct (decide (i ∈ fi)) as [Hi|Hi].
  - destruct (py_index_elem_of i fi Hi) as (k & Hk & Hlook).
    apply lookup_lt_Some in Hlook.
    exists fi, (<[k := v]> fv). rewrite Hk. simpl.
    unfold py.setitem. rewrite length_insert.
    rewrite !(decide_True (P := (k < length fv)%nat)) by lia.
    rewrite !(decide_True (P := i ∈ fi)) by done.
    simpl. split; [done|]. split; [done|].
    by rewrite list_insert_insert_eq.
  - exists (fi ++ [i])%list, (fv ++ [v])%list. split; [done|].
    rewrite !length_app. simpl. split; [lia|].
    rewrite decide_True by (apply elem_of_app; right; left).
    rewrite py_index_snoc by done. simpl.
    unfold py.setitem. rewrite decide_True by (rewrite length_app; simpl; lia).
    simpl. rewrite Hlen.
    rewrite insert_app_r_alt by lia.
    by replace (length fv - length fv)%nat with 0%nat by lia.
Qed.

Lemma py_index_app i fi l :
  i ∈ fi → py.index i (fi ++ l)%list = py.index i fi.
Proof.
  induction fi as [|j fi IH]; [by intros ?%elem_of_nil|].
  intros Hi. simpl. case_decide as Hj; [done|].
  apply elem_of_cons in Hi as [->|Hi]; [done|]. by rewrite IH.
Qed.

Lemma py_index_lt i fi k : py.index i fi = Ok k → (k < length fi)%nat.
Proof.
  revert k. induction fi as [|j fi IH]; intros k; simpl; [done|].
  case_decide; [intros [= <-]; lia|].
  destruct (py.index i fi) as [k'|] eqn:Hk'; [|done].
  intros [= <-]. specialize (IH k' eq_refl). lia.
Qed.

(** One round of the loop of [fix_parameters]. *)
Lemma fix_loop_cons i rest k vals fi fv r :
  fix_loop (i :: rest) k vals fi fv = Ok r →
  ∃ v fi_a fv_a,
    py.getitem vals k = Ok v
    ∧ fix_loop rest (S k) vals fi_a fv_a = Ok r
    ∧ ((i ∈ fi ∧ fi_a = fi
        ∧ ∃ q, py.index i fi = Ok q ∧ (q < length fv)%nat
               ∧ fv_a = <[q := v]> fv)
       ∨ ((i ∉ fi) ∧ fi_a = (fi ++ [i])%list ∧ fv_a = (fv ++ [v])%list)).
Proof.
  simpl. intros (v & Hv & H)%bind_Ok. exists v.
  destruct (decide (i ∈ fi)) as [Hi|Hi].
  - apply bind_Ok in H as (q & Hq & (fv' & Hfv' & H)%bind_Ok).
    unfold py.setitem in Hfv'. case_decide; [|done]. injection Hfv' as <-.
    exists fi, (<[q := v]> fv). split; [done|]. split; [done|].
    left. eauto 10.
  - exists (fi ++ [i])%list, (fv ++ [v])%list. split; [done|].
    split; [done|]. by right.
Qed.

(** The loop only appends to the fixed indices, keeps the two lists in
    step, and leaves every index it was given fixed. *)
Lemma fix_loop_facts ps k vals fi fv fi1 fv1 :
  length fi = length fv →
  fix_loop ps k vals fi fv = Ok (fi1, fv1) →
  (∃ l, fi1 = (fi ++ l)%list)
  ∧ length fi1 = length fv1
  ∧ Forall (λ i, i ∈ fi1) ps.
Proof.
  revert k fi fv. induction ps as [|i rest IH]; intros k fi fv Hlen.
  - intros [= <- <-]. split; [exists []; by rewrite app_nil_r|done].
  - intros (v & fi_a & fv_a & _ & Hrest & Hstep)%fix_loop_cons.
    assert (length fi_a = length fv_a ∧ (∃ l, fi_a = (fi ++ l)%list)
            ∧ i ∈ fi_a) as (Hlen_a & [l0 Hl0] & Hi_a).
    { destruct Hstep as [(Hi & -> & q & _ & _ & ->)|(Hi & -> & ->)].
      - rewrite length_insert. split; [done|].
        split; [exists []; by rewrite app_nil_r|done].
      - rewrite !length_app. simpl. split; [lia|]. split; [by eexists|].
        apply elem_of_app. right. left. }
    destruct (IH _ _ _ Hlen_a Hrest) as ([l Hl] & Hlen1 & Hall).
    split; [exists (l0 ++ l)%list; by rewrite Hl, Hl0, app_assoc|].
    split; [done|]. constructor; [|done].
    rewrite Hl. apply elem_of_app. by left.
Qed.

(** A position that no index of the loop names keeps its value. *)
Lemma fix_loop_untouched ps k vals fi fv fi1 fv1 p :
  length fi = length fv →
  fix_loop ps k vals fi fv = Ok (fi1, fv1) →
  (p < length fi)%nat →
  (∀ i, i ∈ ps → py.index i fi1 ≠ Ok p) →
  fv1 !! p = fv !! p.
Proof.
  revert k fi fv. induction ps as [|i rest IH]; intros k fi fv Hlen.
  - by intros [= <- <-].
  - intros Hrun Hp Hno.
    pose proof (fix_loop_facts _ _ _ _ _ _ _ Hlen Hrun) as ([l Hl] & _ & _).
    apply fix_loop_cons in Hrun as (v & fi_a & fv_a & _ & Hrest & Hstep).
    assert (∀ i', i' ∈ rest → py.index i' fi1 ≠ Ok p) as Hno'.
    { intros i' Hi'. apply Hno. by right. }
    destruct Hstep as [(Hi & -> & q & Hq & Hlt & ->)|(Hi & -> & ->)].
    + rewrite (IH (S k) fi (<[q := v]> fv)); try done.
      * apply list_lookup_insert_ne. intros <-.
        apply (Hno i); [left|]. by rewrite Hl, py_index_app.
      * by rewrite length_insert.
    + rewrite (IH (S k) (fi ++ [i])%list (fv ++ [v])%list); try done.
      * apply lookup_app_l. lia.
      * rewrite !length_app. simpl. lia.
      * rewrite length_app. lia.
Qed.

(** Running the loop again, from its own result or from values that
    differ from it only where the loop writes, gives that result. *)
Lemma fix_loop_rerun ps k vals fi fv fi1 fv1 fv' :
  length fi = length fv →
  fix_loop ps k vals fi fv = Ok (fi1, fv1) →
  length fv' = length fv1 →
  (∀ p, (∀ i, i ∈ ps → py.index i fi1 ≠ Ok p) → fv' !! p = fv1 !! p) →
  fix_loop ps k vals fi1 fv' = Ok (fi1, fv1).
Proof.
  revert k fi fv fv'. induction ps as [|i rest IH]; intros k fi fv fv' Hlen.
  - intros [= <- <-] _ Hsame. simpl. do 2 f_equal.
    apply list_eq. intros p. apply Hsame. by intros i ?%elem_of_nil.
  - intros Hrun Hlen' Hsame.
    pose proof (fix_loop_facts _ _ _ _ _ _ _ Hlen Hrun)
      as (_ & Hlen1 & Hall).
    apply Forall_cons in Hall as [Hi1 _].
    apply fix_loop_cons in Hrun as (v & fi_a & fv_a & Hv & Hrest & Hstep).
    destruct (py_index_elem_of i fi1 Hi1) as (q & Hq & _).
    pose proof (py_index_lt _ _ _ Hq) as Hqlt.
    assert (length fi_a = length fv_a ∧ (q < length fi_a)%nat
            ∧ fv_a !! q = Some v
            ∧ ∀ l, py.index i (fi_a ++ l)%list = py.index i fi_a)
      as (Hlen_a & Hq_a & Hv_a & Hstable).
    { destruct Hstep as [(Hi & -> & q' & Hq' & Hlt & ->)|(Hi & -> & ->)].
      - assert (∃ l, fi1 = (fi ++ l)%list) as [l Hl].
        { apply (fix_loop_facts rest (S k) vals fi (<[q' := v]> fv) fi1 fv1);
            [by rewrite length_insert|done]. }
        assert (q' = q) as ->.
        { rewrite Hl, py_index_app in Hq by done. congruence. }
        rewrite length_insert. split; [done|]. split; [lia|].
        split; [by apply list_lookup_insert_eq|].
        intros l'. by apply py_index_app.
      - assert (∃ l, fi1 = ((fi ++ [i]) ++ l)%list) as [l Hl].
        { apply (fix_loop_facts rest (S k) vals (fi ++ [i])%list
                   (fv ++ [v])%list fi1 fv1); [|done].
          rewrite !length_app. simpl. lia. }
        assert (i ∈ (fi ++ [i])%list) as Hin.
        { apply elem_of_app. right. left. }
        assert (q = length fi) as ->.
        { rewrite Hl, py_index_app, py_index_snoc in Hq by done.
          congruence. }
        rewrite !length_app. simpl. split; [lia|]. split; [lia|].
        split; [|intros l'; by apply py_index_app].
        rewrite Hlen, lookup_app_r by lia.
        by replace (length fv - length fv)%nat with 0%nat by lia. }
    simpl. rewrite Hv. simpl. rewrite decide_True by done.
    rewrite Hq. simpl. unfold py.setitem.
    rewrite decide_True by lia. simpl.
    apply (IH _ _ _ _ Hlen_a Hrest); [by rewrite length_insert|].
    intros p Hno. destruct (decide (p = q)) as [->|Hpq].
    + rewrite list_lookup_insert_eq by lia.
      by rewrite (fix_loop_untouched rest (S k) vals fi_a fv_a fi1 fv1 q).
    + rewrite list_lookup_insert_ne by done.
      apply Hsame. intros i' [->|Hi']%elem_of_cons; [congruence|].
      by apply Hno.
Qed.

Lemma unfix_loop_absent pis fi fv :
  Forall (λ i, i ∉ fi) pis → unfix_loop pis fi fv = Ok (fi, fv).
Proof.
  induction 1 as [|i pis Hi _ IH]; simpl; [done|].
  by rewrite decide_False.
Qed.

Lemma consistent_set_fixed s fi fv :
  dimensions_agree s → length fi = length fv →
  dimensions_agree (set_fixed fi fv s).
Proof. intros (? & ? & ? & ? & ? & ?) ?. by repeat split. Qed.

Lemma normalize_Ok_fixed junk s s' :
  normalize junk s = Ok s' →
  x_fixed_indices s' = x_fixed_indices s ∧ x_fixed_vals s' = x_fixed_vals s.
Proof.
  intros [Hs _]%normalize_Ok_iff.
  by apply normalize_steps_Ok in Hs as (a & b & g & -> & _).
Qed.

(** C5.  On a reachable state, [fix_parameters(i, v)] returns, and a
    second call with the same arguments returns the state unchanged (for
    one index and value, and for lists of them as well);
    [unfix_parameters] with indices that are not fixed returns the state
    unchanged, without an error. *)
Theorem fix_unfix_idempotent (s : Problem) :
  reachable s →
  (∀ junk junk' i v, ∃ s1,
      fix_parameters junk s (One i) (One v) = Ok s1
      ∧ fix_parameters junk' s1 (One i) (One v) = Ok s1)
  ∧ (∀ junk junk' pis pvs s1,
      fix_parameters junk s pis pvs = Ok s1 →
      fix_parameters junk' s1 pis pvs = Ok s1)
  ∧ (∀ junk pis, Forall (λ i, i ∉ x_fixed_indices s) (as_list pis) →
                 unfix_parameters junk s pis = Ok s).
Proof.
  intros [Hd Hp]%reachable_consistent.
  pose proof Hd as (_ & _ & _ & _ & _ & Hlen).
  assert (∀ junk junk' pis pvs s1,
            fix_parameters junk s pis pvs = Ok s1 →
            fix_parameters junk' s1 pis pvs = Ok s1) as Hagain.
  { intros junk junk' pis pvs s1. unfold fix_parameters.
    intros ([fi1 fv1] & Hloop & Hnorm)%bind_Ok.
    pose proof (normalize_Ok_fixed _ _ _ Hnorm) as [Hfi Hfv].
    simpl in Hfi, Hfv. rewrite Hfi, Hfv.
    rewrite (fix_loop_rerun _ _ _ _ _ fi1 fv1 fv1 Hlen Hloop); [|done..].
    simpl. rewrite <-Hfi, <-Hfv at 1. rewrite set_fixed_id.
    eapply normalize_consistent, normalize_Ok_consistent, Hnorm. }
  split; [|split; [exact Hagain|]].
  - intros junk junk' i v.
    destruct (fix_loop_single i v _ _ Hlen) as (fi' & fv' & H1 & Hlen' & _).
    exists (notify_objective (set_fixed fi' fv' s)).
    assert (fix_parameters junk s (One i) (One v)
            = Ok (notify_objective (set_fixed fi' fv' s))) as Hfirst.
    { unfold fix_parameters. simpl as_list. rewrite H1.
      by apply normalize_agree, consistent_set_fixed. }
    split; [done|]. by apply (Hagain junk).
  - intros junk pis Hpis. unfold unfix_parameters.
    rewrite unfix_loop_absent by done. simpl.
    rewrite set_fixed_id. by apply normalize_consistent.
Qed.

(** ** Names *)

Lemma init_Ok junk o lb ub d fi fv g names scales s :
  __init__ junk o lb ub d fi fv g names scales = Ok s →
  ∃ n, normalize junk (init_fields o lb ub n fi fv g names scales) = Ok s.
Proof. unfold __init__. case_decide; [done|]. eauto. Qed.

Lemma fix_parameters_x_names junk s pi pv s' :
  fix_parameters junk s pi pv = Ok s' → x_names s' = x_names s.
Proof.
  unfold fix_parameters. intros ([fi fv] & _ & H)%bind_Ok.
  by apply normalize_Ok_x_names in H.
Qed.

Lemma unfix_parameters_x_names junk s pi s' :
  unfix_parameters junk s pi = Ok s' → x_names s' = x_names s.
Proof.
  unfold unfix_parameters. intros ([fi fv] & _ & H)%bind_Ok.
  by apply normalize_Ok_x_names in H.
Qed.

(** C8.  When [__init__] returns a [Problem]: names declared by the
    objective are the names of the problem, whatever the caller passed;
    when the objective declares none and the caller passes none, the names
    are [x0, x1, ...]; and no later operation reads the objective's names
    again: [normalize], [fix_parameters] and [unfix_parameters] leave the
    names of any state as they are. *)
Theorem names_chosen_at_construction junk o lb ub d fi fv g names scales s :
  __init__ junk o lb ub d fi fv g names scales = Ok s →
  (∀ l, obj_x_names o = Some l → x_names s = l)
  ∧ (declares_none o → names = None →
     x_names s = py.x_name <$> seq 0 (dim_full s))
  ∧ (∀ junk' s0 s', normalize junk' s0 = Ok s' → x_names s' = x_names s0)
  ∧ (∀ junk' s0 pi pv s',
       fix_parameters junk' s0 pi pv = Ok s' → x_names s' = x_names s0)
  ∧ (∀ junk' s0 pi s',
       unfix_parameters junk' s0 pi = Ok s' → x_names s' = x_names s0).
Proof.
  intros [n Hinit]%init_Ok.
  pose proof (normalize_Ok_x_names _ _ _ Hinit) as Hnames.
  pose proof (normalize_Ok_dim_full _ _ _ Hinit) as Hdim.
  pose proof (normalize_Ok_consistent _ _ _ Hinit) as [Hd _].
  simpl in Hnames, Hdim. unfold init_names in Hnames.
  split; [|split; [|split; [|split]]].
  - intros l Hl. by rewrite Hnames, Hl.
  - intros [Ho|Ho] ->; rewrite Ho in Hnames; [by rewrite Hdim|].
    destruct Hd as (_ & _ & _ & Hlen & _).
    rewrite Hnames in Hlen. simpl in Hlen. rewrite <-Hlen. by rewrite Hnames.
  - intros junk' s0 s'. apply normalize_Ok_x_names.
  - intros junk' s0 pi pv s'. apply fix_parameters_x_names.
  - intros junk' s0 pi s'. apply unfix_parameters_x_names.
Qed.

Lemma names_chosen_at_construction_witness :
  ∃ s,
    __init__ no_junk named_objective (One (fl 0 0)) (One (fl 1 0)) (Some 3)
      None None None (Some ["p"; "q"; "r"]%string) None = Ok s
    ∧ x_names s = ["a"; "b"; "c"]%string.
Proof.
  eexists. split; [vm_compute; reflexivity|].
  refine (proj1 (names_chosen_at_construction no_junk named_objective
                   (One (fl 0 0)) (One (fl 1 0)) (Some 3) None None None
                   (Some ["p"; "q"; "r"]%string) None _ _) _ _).
  - vm_compute. reflexivity.
  - reflexivity.
Defined.

(** ** Rebuilding the bounds *)

Lemma normalize_lb_scalar junk s x :
  lb_full s = [x] →
  normalize_lb junk s = Ok (set_lb_full (replicate (dim_full s) x) s).
Proof. intros H. unfold normalize_lb. rewrite H. simpl. done. Qed.

(** C2.  A bound of size 1 is expanded to [dim_full] copies of its value
    (scenario E gives [[0, 0, 0, 0]]).  A bound of another size that is not
    [dim_full] is rebuilt with the fixed values at the fixed positions, but
    the free positions receive the content of the freshly allocated array:
    the stored reduced values [[a, b]] do not appear in the result. *)
Theorem normalize_lb_forgets_reduced_values :
  (∀ junk s x,
     normalize_lb junk (set_lb_full [x] s)
     = Ok (set_lb_full (replicate (dim_full s) x) s))
  ∧ (lb_full <$> scenario_E) = Ok [fl 0 0; fl 0 0; fl 0 0; fl 0 0]
  ∧ (∀ junk a b,
       normalize_lb junk (set_lb_full [a; b] state_B)
       = Ok (set_lb_full [junk 0%nat; fl 1 (-1); junk 2%nat] state_B))
  ∧ (∀ junk,
       (lb_full <$> reduced_bounds_problem junk)
       = Ok [junk 0%nat 0%nat; fl 1 (-1); junk 0%nat 2%nat]).
Proof.
  split; [intros junk s x; by rewrite (normalize_lb_scalar _ _ x)|].
  split; [vm_compute; reflexivity|].
  split.
  - intros junk a b. vm_compute. reflexivity.
  - intros junk. vm_compute. reflexivity.
Qed.

(** ** Scattering rows into a NaN-filled matrix *)

Lemma mapM_Ok {A B : Type} (f : A → result B) (l : list A) (k : list B) :
  mapM f l = Ok k ↔ Forall2 (λ x y, f x = Ok y) l k.
Proof.
  revert k. induction l as [|x l IH]; intros k; simpl.
  - split; [intros [= <-]; constructor|by inversion 1].
  - split.
    + intros (y & Hy & (k' & Hk' & [= <-])%bind_Ok)%bind_Ok.
      constructor; [done|]. by apply IH.
    + inversion 1 as [|? y ? k' Hy Hk']; subst.
      apply IH in Hk'. rewrite Hy. simpl. by rewrite Hk'.
Qed.

Lemma fmap_const_replicate {A B : Type} (c : B) (l : list A) :
  (λ _, c) <$> l = replicate (length l) c.
Proof. induction l; simpl; by f_equal. Qed.

Lemma nan_vector_replicate n : nan_vector n = replicate n nan.
Proof.
  unfold nan_vector. by rewrite fmap_const_replicate, length_replicate.
Qed.

Lemma empty_nan_replicate junk r w :
  np2.empty_nan junk r w = Matrix w (replicate r (replicate w nan)).
Proof.
  unfold np2.empty_nan. f_equal.
  rewrite (fmap_const_replicate _ (seq 0 r)), length_seq.
  by rewrite fmap_const_replicate, length_empty.
Qed.

(** Writing a matrix into columns of a matrix of equal rows [c] is writing
    each of its rows into [c]. *)
Lemma put_cols_replicate w c idx m g' :
  np2.put_cols (Matrix w (replicate (nrows m) c)) idx m = Ok g' →
  ncols g' = w ∧ Forall2 (λ v a, np.put c idx v = Ok a) (rows m) (rows g').
Proof.
  unfold np2.put_cols, nrows. case_decide; [|done]. simpl.
  intros (rs & Hrs & [= <-])%bind_Ok. simpl. split; [done|].
  apply mapM_Ok in Hrs. revert rs Hrs.
  induction (rows m) as [|v l IH]; intros rs; simpl.
  - inversion 1. constructor.
  - inversion 1 as [|? a ? rs' Ha Hrs']; subst. constructor; [done|].
    by apply IH.
Qed.

Lemma put_nan_scattered s v a :
  np.put (replicate (dim_full s) nan) (x_free_indices s) v = Ok a →
  scattered s v a.
Proof.
  intros Hput. split; [|split].
  - apply put_length in Hput. by rewrite Hput, length_replicate.
  - intros Hlen k i Hk. unfold np.put in Hput.
    rewrite broadcast_same in Hput by done. simpl in Hput.
    destruct (v !! k) as [x|] eqn:Hx.
    + eapply scatter_lookup; eauto using NoDup_x_free_indices.
      intros i' Hi'. apply x_free_indices_range in Hi'. lia.
    + apply lookup_ge_None in Hx. apply lookup_lt_Some in Hk. lia.
  - intros j Hj Hfixed. unfold np.put in Hput.
    apply bind_Ok in Hput as (vs & _ & Hsc).
    rewrite (scatter_lookup_ne _ _ _ _ j) with (1 := λ i Hi,
      proj1 (x_free_indices_range s i Hi)) (3 := Hsc).
    + by apply lookup_replicate_2.
    + rewrite elem_of_x_free_indices. tauto.
Qed.

(** C6.  When the guesses have a width other than [dim_full] and
    [normalize] returns, the new guesses have width [dim_full] and every
    row is the old row scattered into the free columns of a NaN-filled
    row: the fixed columns hold NaN, not the fixed values. *)
Theorem normalize_guesses_scatters_rows junk (s s' : Problem) :
  ncols (x_guesses_full s) ≠ dim_full s →
  normalize junk s = Ok s' →
  ncols (x_guesses_full s') = dim_full s
  ∧ Forall2 (scattered s) (rows (x_guesses_full s))
      (rows (x_guesses_full s')).
Proof.
  intros Hw [Hsteps _]%normalize_Ok_iff.
  unfold normalize_steps in Hsteps.
  apply bind_Ok in Hsteps as (s1 & H1 & Hsteps).
  apply bind_Ok in Hsteps as (s2 & H2 & Hsteps).
  apply bind_Ok in Hsteps as (s3 & H3 & [= <-]).
  apply normalize_lb_Ok in H1 as (a & -> & _).
  apply normalize_ub_Ok in H2 as (b & -> & _).
  unfold normalize_guesses in H3. simpl in H3.
  rewrite decide_True in H3 by done.
  apply bind_Ok in H3 as (g & Hg & [= <-]). simpl.
  rewrite empty_nan_replicate in Hg.
  apply put_cols_replicate in Hg as [Hcols Hrows].
  split; [done|].
  eapply Forall2_impl; [exact Hrows|].
  intros v r Hput. by apply (put_nan_scattered s).
Qed.

(** ** [get_full_vector]: the test on the first axis *)

(** C9.  [get_full_vector] compares the length of the first axis of its
    input with [dim_full]: on equality the input is returned as it is, be
    it a batch with [dim_full] rows of any width; otherwise a result is the
    input scattered along its last axis into the free positions of a
    NaN-filled array of full width (followed by the fill, if one is given). *)
Theorem get_full_vector_tests_first_axis (s : Problem) (x : ndarray)
  (f : option (list float)) :
  (len x = dim_full s → get_full_vector s (Some x) f = Ok (Some x))
  ∧ (len x ≠ dim_full s →
     ∀ y, get_full_vector s (Some x) f = Ok y → full_of s f x y).
Proof.
  split.
  - intros H. unfold get_full_vector. by rewrite decide_True.
  - intros H y. unfold get_full_vector. rewrite decide_False by done.
    destruct x as [v|m].
    + intros (a1 & Ha1 & (a & Ha & [= <-])%bind_Ok)%bind_Ok.
      exists a1. split; [|done].
      rewrite nan_vector_replicate in Ha1. by apply put_nan_scattered.
    + intros (g1 & Hg1 & (g & Hg & [= <-])%bind_Ok)%bind_Ok.
      exists g1. apply put_cols_replicate in Hg1 as [Hcols Hrows].
      split; [done|]. split; [|done].
      eapply Forall2_impl; [exact Hrows|].
      intros v r Hput. rewrite nan_vector_replicate in Hput.
      by apply put_nan_scattered.
Qed.

Lemma get_full_vector_tests_first_axis_witness :
  get_full_vector state_B (Some batch_3x2) None = Ok (Some batch_3x2)
  ∧ get_full_vector state_B (Some batch_2x2) None
    = Ok (Some (Arr2 (Matrix 3 [[fl 1 0; nan; fl 2 0];
                                [fl 3 0; nan; fl 4 0]])))
  ∧ full_of state_B None batch_2x2
      (Some (Arr2 (Matrix 3 [[fl 1 0; nan; fl 2 0];
                             [fl 3 0; nan; fl 4 0]]))).
Proof.
  split; [|split].
  - apply (proj1 (get_full_vector_tests_first_axis state_B batch_3x2 None)).
    reflexivity.
  - vm_compute. reflexivity.
  - apply (proj2 (get_full_vector_tests_first_axis state_B batch_2x2 None)).
    + vm_compute. discriminate.
    + vm_compute. reflexivity.
Defined.

Lemma normalize_guesses_scatters_rows_witness :
  normalize no_junk reduced_guesses_fields = Ok reduced_guesses_problem
  ∧ Forall2 (scattered reduced_guesses_fields)
      [[fl 10 0; fl 20 0]; [fl 30 0; fl 40 0]]
      [[fl 10 0; nan; fl 20 0]; [fl 30 0; nan; fl 40 0]].
Proof.
  assert (normalize no_junk reduced_guesses_fields
          = Ok reduced_guesses_problem) as H by (vm_compute; reflexivity).
  split; [exact H|].
  apply (normalize_guesses_scatters_rows no_junk reduced_guesses_fields
           reduced_guesses_problem); [|exact H].
  vm_compute. discriminate.
Defined.

Lemma scenario_A_state : scenario_A = Ok state_A.
Proof. vm_compute. reflexivity. Qed.

Lemma scenario_C_state : scenario_C = Ok state_A.
Proof. vm_compute. reflexivity. Qed.

(** Scenario B: [get_full_vector([10, 20], [0.5]) = [10, 0.5, 20]]. *)
Lemma scenario_B_full_vector :
  get_full_vector state_B (Some (Arr1 [fl 10 0; fl 20 0])) (Some [fl 1 (-1)])
  = Ok (Some (Arr1 [fl 10 0; fl 1 (-1); fl 20 0])).
Proof. vm_compute. reflexivity. Qed.

(** Scenario F: without a fill the fixed position holds NaN. *)
Lemma scenario_F_full_vector :
  get_full_vector state_B (Some (Arr1 [fl 10 0; fl 20 0])) None
  = Ok (Some (Arr1 [fl 10 0; nan; fl 20 0])).
Proof. vm_compute. reflexivity. Qed.

Lemma reachable_state_B : reachable state_B.
Proof.
  apply (reach_fix no_junk state_A (Many [1]) (Many [fl 1 (-1)])).
  - eapply reach_init. exact scenario_A_state.
  - vm_compute. reflexivity.
Defined.

Lemma fix_unfix_idempotent_witness :
  reachable state_B
  ∧ (∃ s1, fix_parameters no_junk state_B (One 0) (One (fl 3 (-2))) = Ok s1
           ∧ fix_parameters no_junk s1 (One 0) (One (fl 3 (-2))) = Ok s1)
  ∧ unfix_parameters no_junk state_B (Many [0; 2]) = Ok state_B.
Proof.
  pose proof (fix_unfix_idempotent state_B reachable_state_B)
    as (Hfix & _ & Hunfix).
  split; [exact reachable_state_B|]. split.
  - apply Hfix.
  - apply Hunfix. apply (bool_decide_unpack _). vm_compute. exact I.
Defined.

Lemma normalize_raises_iff_witness :
  (∃ msg, normalize no_junk (set_fixed [1] [] state_A)
          = Raise (AssertionError msg))
  ∧ normalize no_junk state_A = Ok state_A.
Proof.
  split.
  - apply (proj1 (normalize_raises_iff no_junk (set_fixed [1] [] state_A))).
    eexists. split; [vm_compute; reflexivity|].
    intros H. apply (bool_decide_pack _) in H. vm_compute in H. exact H.
  - apply (proj1 (proj2 (normalize_raises_iff no_junk state_A)) state_A).
    split; [vm_compute; reflexivity|].
    apply (bool_decide_unpack _). vm_compute. exact I.
Defined.

(** * Further properties of the class *)

(** ** What every reachable state satisfies *)

(** X1.  Every state that [__init__], [normalize], [fix_parameters] and
    [unfix_parameters] hand out has bounds, scales, names and guesses of
    full size, as many fixed values as fixed indices, and an objective
    that was told the partition of that very state. *)
Theorem reachable_invariant (s : Problem) :
  reachable s →
  length (lb_full s) = dim_full s
  ∧ length (ub_full s) = dim_full s
  ∧ length (x_scales s) = dim_full s
  ∧ length (x_names s) = dim_full s
  ∧ ncols (x_guesses_full s) = dim_full s
  ∧ length (x_fixed_indices s) = length (x_fixed_vals s)
  ∧ obj_partition (objective s)
    = Some (Partition (dim_full s) (x_free_indices s) (x_fixed_indices s)
              (x_fixed_vals s)).
Proof.
  intros [(? & ? & ? & ? & ? & ?) Hp]%reachable_consistent.
  by repeat split.
Qed.

Lemma reachable_invariant_witness :
  reachable state_B
  ∧ length (lb_full state_B) = dim_full state_B
  ∧ length (x_fixed_indices state_B) = length (x_fixed_vals state_B).
Proof.
  pose proof (reachable_invariant state_B reachable_state_B)
    as (H1 & _ & _ & _ & _ & H2 & _).
  split; [exact reachable_state_B|]. by split.
Defined.

(** X2.  [normalize] is idempotent: on a state it returned, it returns that
    state again, whatever the allocator hands out. *)
Theorem normalize_idempotent junk junk' (s s' : Problem) :
  normalize junk s = Ok s' → normalize junk' s' = Ok s'.
Proof.
  intros H. eapply normalize_consistent, normalize_Ok_consistent, H.
Qed.

Lemma normalize_idempotent_witness :
  normalize no_junk reduced_guesses_fields = Ok reduced_guesses_problem
  ∧ normalize no_junk reduced_guesses_problem = Ok reduced_guesses_problem.
Proof.
  assert (normalize no_junk reduced_guesses_fields
          = Ok reduced_guesses_problem) as H by (vm_compute; reflexivity).
  split; [exact H|].
  exact (normalize_idempotent no_junk no_junk _ _ H).
Defined.

(** ** Construction *)

(** X3.  A problem built without fixed indices has the full dimension taken
    from the argument, or else from the size of [lb]; nothing is fixed,
    [dim] is [dim_full] and the free indices are [0, ..., dim_full - 1]. *)
Theorem init_without_fixed junk o lb ub d fv g names scales (s : Problem) :
  __init__ junk o lb ub d None fv g names scales = Ok s →
  Z.of_nat (dim_full s) = default (Z.of_nat (length (as_list lb))) d
  ∧ x_fixed_indices s = []
  ∧ x_fixed_vals s = []
  ∧ dim s = Z.of_nat (dim_full s)
  ∧ x_free_indices s = seqZ 0 (Z.of_nat (dim_full s)).
Proof.
  unfold __init__. case_decide as Hd; [done|]. intros Hnorm.
  pose proof (normalize_Ok_dim_full _ _ _ Hnorm) as Hdim.
  pose proof (normalize_Ok_fixed _ _ _ Hnorm) as [Hfi Hfv].
  pose proof (normalize_Ok_consistent _ _ _ Hnorm)
    as [(_ & _ & _ & _ & _ & Hlen) _].
  simpl in Hdim, Hfi, Hfv.
  split; [rewrite Hdim; lia|]. split; [done|].
  split.
  { rewrite Hfi in Hlen. by destruct (x_fixed_vals s). }
  split; [unfold dim; rewrite Hfi; simpl; lia|].
  rewrite x_free_indices_free_of, Hfi. unfold free_of.
  induction (seqZ 0 (Z.of_nat (dim_full s))) as [|j l IH]; [done|].
  rewrite filter_cons_True by apply not_elem_of_nil. by f_equal.
Qed.

Lemma init_without_fixed_witness :
  scenario_A = Ok state_A
  ∧ Z.of_nat (dim_full state_A) = 3
  ∧ x_free_indices state_A = seqZ 0 (Z.of_nat (dim_full state_A)).
Proof.
  assert (scenario_A = Ok state_A) as H by (vm_compute; reflexivity).
  split; [exact H|].
  pose proof (init_without_fixed _ _ _ _ _ _ _ _ _ _ H)
    as (H1 & _ & _ & _ & H2).
  by split.
Defined.

(** ** Fixing and unfixing on reachable states *)

Lemma free_of_snoc n fixed i :
  free_of n (fixed ++ [i])%list = filter (λ j, j ≠ i) (free_of n fixed).
Proof.
  unfold free_of. rewrite list_filter_filter. apply list_filter_iff.
  intros j. rewrite not_elem_of_app, list_elem_of_singleton. tauto.
Qed.

Lemma fix_fresh_Ok junk s i v :
  consistent s → i ∉ x_fixed_indices s →
  fix_parameters junk s (One i) (One v)
  = Ok (notify_objective
          (set_fixed (x_fixed_indices s ++ [i])%list (x_fixed_vals s ++ [v])%list s)).
Proof.
  intros [Hd Hp] Hi. pose proof Hd as (_ & _ & _ & _ & _ & Hlen).
  unfold fix_parameters. simpl. rewrite decide_False by done. simpl.
  apply normalize_agree, consistent_set_fixed; [done|].
  rewrite !length_app. simpl. lia.
Qed.

(** X4.  Fixing an index that is not fixed yet appends the index and the value
    to the two lists, lowers [dim] by one, strikes the index out of the
    free indices (keeping their order) and leaves bounds and guesses as
    they are. *)
Theorem fix_parameters_fresh junk (s : Problem) (i : Z) (v : float) :
  reachable s → i ∉ x_fixed_indices s →
  ∃ s1, fix_parameters junk s (One i) (One v) = Ok s1
        ∧ x_fixed_indices s1 = (x_fixed_indices s ++ [i])%list
        ∧ x_fixed_vals s1 = (x_fixed_vals s ++ [v])%list
        ∧ dim s1 = dim s - 1
        ∧ x_free_indices s1 = filter (λ j, j ≠ i) (x_free_indices s)
        ∧ lb_full s1 = lb_full s ∧ ub_full s1 = ub_full s
        ∧ x_guesses_full s1 = x_guesses_full s.
Proof.
  intros Hs%reachable_consistent Hi. eexists.
  split; [by apply fix_fresh_Ok|]. simpl.
  split; [done|]. split; [done|].
  split; [unfold dim; simpl; rewrite length_app; simpl; lia|].
  split; [|done].
  rewrite !x_free_indices_free_of. simpl. apply free_of_snoc.
Qed.

Lemma fix_parameters_fresh_witness :
  reachable state_A ∧ (1 ∉ x_fixed_indices state_A)
  ∧ ∃ s1, fix_parameters no_junk state_A (One 1) (One (fl 1 (-1))) = Ok s1
          ∧ x_fixed_indices s1 = [1] ∧ x_free_indices s1 = [0; 2]
          ∧ dim s1 = 2.
Proof.
  assert (reachable state_A) as Hr.
  { eapply reach_init. exact scenario_A_state. }
  assert (1 ∉ x_fixed_indices state_A) as Hi by apply not_elem_of_nil.
  split; [exact Hr|]. split; [exact Hi|].
  destruct (fix_parameters_fresh no_junk state_A 1 (fl 1 (-1)) Hr Hi)
    as (s1 & H1 & H2 & _ & H3 & H4 & _).
  exists s1. split; [exact H1|]. split; [exact H2|].
  split; [rewrite H4; vm_compute; reflexivity|].
  rewrite H3. reflexivity.
Defined.

Lemma py_index_lookup i l k : py.index i l = Ok k → l !! k = Some i.
Proof.
  revert k. induction l as [|j l IH]; intros k; simpl; [done|].
  case_decide as Hj; [by intros [= <-]; subst|].
  destruct (py.index i l) as [k'|]; [|done].
  intros [= <-]. by apply IH.
Qed.

(** X5.  Fixing an index that is fixed already overwrites its value in place:
    the fixed indices keep their order, only the value at the position of
    the index changes, and [dim] stays. *)
Theorem fix_parameters_again junk (s : Problem) (i : Z) (v : float) (k : nat) :
  reachable s → py.index i (x_fixed_indices s) = Ok k →
  ∃ s1, fix_parameters junk s (One i) (One v) = Ok s1
        ∧ x_fixed_indices s1 = x_fixed_indices s
        ∧ x_fixed_vals s1 = <[k := v]> (x_fixed_vals s)
        ∧ x_fixed_vals s1 !! k = Some v
        ∧ dim s1 = dim s
        ∧ x_free_indices s1 = x_free_indices s.
Proof.
  intros [Hd Hp]%reachable_consistent Hk.
  pose proof Hd as (_ & _ & _ & _ & _ & Hlen).
  pose proof (py_index_lt _ _ _ Hk) as Hlt.
  assert (i ∈ x_fixed_indices s) as Hi.
  { eapply list_elem_of_lookup_2, py_index_lookup, Hk. }
  exists (notify_objective
            (set_fixed (x_fixed_indices s) (<[k := v]> (x_fixed_vals s)) s)).
  split.
  - unfold fix_parameters. simpl. rewrite decide_True by done.
    rewrite Hk. simpl. unfold py.setitem. rewrite decide_True by lia. simpl.
    apply normalize_agree, consistent_set_fixed; [done|].
    by rewrite length_insert.
  - simpl. split; [done|]. split; [done|].
    split; [apply list_lookup_insert_eq; lia|]. done.
Qed.

Lemma fix_parameters_again_witness :
  ∃ s1, fix_parameters no_junk state_B (One 1) (One (fl 3 (-2))) = Ok s1
        ∧ x_fixed_indices s1 = [1] ∧ x_fixed_vals s1 = [fl 3 (-2)].
Proof.
  destruct (fix_parameters_again no_junk state_B 1 (fl 3 (-2)) 0
              reachable_state_B eq_refl) as (s1 & H1 & H2 & H3 & _).
  exists s1. split; [exact H1|]. split; [exact H2|exact H3].
Defined.

Lemma delete_snoc {A : Type} (l : list A) (x : A) :
  delete (length l) (l ++ [x])%list = l.
Proof. by rewrite delete_middle, app_nil_r. Qed.

Lemma notify_set_fixed_back s fi fv :
  obj_partition (objective s) = Some (current_partition s) →
  notify_objective
    (set_fixed (x_fixed_indices s) (x_fixed_vals s)
       (notify_objective (set_fixed fi fv s))) = s.
Proof.
  destruct s as [[names p] ? ? ? ? ? ? ? ?].
  unfold notify_objective, update_from_problem, set_objective, set_fixed,
    current_partition. simpl. by intros ->.
Qed.

(** X6.  Fixing an index that was not fixed and unfixing it again gives the
    state back, objective included. *)
Theorem unfix_after_fix junk junk' (s : Problem) (i : Z) (v : float) :
  reachable s → i ∉ x_fixed_indices s →
  (fix_parameters junk s (One i) (One v)
     ≫= λ s1, unfix_parameters junk' s1 (One i)) = Ok s.
Proof.
  intros Hs%reachable_consistent Hi.
  rewrite fix_fresh_Ok by done. destruct Hs as [Hd Hp].
  pose proof Hd as (_ & _ & _ & _ & _ & Hlen).
  simpl. unfold unfix_parameters. simpl.
  rewrite decide_True by (apply elem_of_app; right; left).
  rewrite py_index_snoc by done. simpl.
  unfold py.pop. rewrite !length_app. simpl.
  rewrite !decide_True by lia. simpl.
  rewrite delete_snoc, Hlen, delete_snoc.
  rewrite normalize_agree.
  - f_equal. by apply notify_set_fixed_back.
  - destruct Hd as (? & ? & ? & ? & ? & ?). by repeat split.
Qed.

Lemma unfix_after_fix_witness :
  (fix_parameters no_junk state_B (One 2) (One (fl 5 0))
     ≫= λ s1, unfix_parameters no_junk s1 (One 2)) = Ok state_B.
Proof.
  apply (unfix_after_fix no_junk no_junk state_B 2 (fl 5 0)
           reachable_state_B).
  apply (bool_decide_unpack _). vm_compute. exact I.
Defined.

Lemma not_elem_of_delete_NoDup {A : Type} (l : list A) (k : nat) (x : A) :
  NoDup l → l !! k = Some x → x ∉ delete k l.
Proof.
  intros Hnd Hk [j Hj]%list_elem_of_lookup_1.
  rewrite list_lookup_delete in Hj. case_decide.
  - pose proof (NoDup_lookup _ _ _ _ Hnd Hk Hj). lia.
  - pose proof (NoDup_lookup _ _ _ _ Hnd Hk Hj). lia.
Qed.

(** X7.  Unfixing a fixed index removes the index and the value paired with it
    (at the position of its first occurrence) and raises [dim] by one;
    when the fixed indices are distinct the index is no longer fixed, and
    it is a free index again if it lies in the range. *)
Theorem unfix_parameters_fixed junk (s : Problem) (i : Z) (k : nat) :
  reachable s → py.index i (x_fixed_indices s) = Ok k →
  ∃ s1, unfix_parameters junk s (One i) = Ok s1
        ∧ x_fixed_indices s1 = delete k (x_fixed_indices s)
        ∧ x_fixed_vals s1 = delete k (x_fixed_vals s)
        ∧ dim s1 = dim s + 1
        ∧ (NoDup (x_fixed_indices s) →
           (i ∉ x_fixed_indices s1)
           ∧ (0 ≤ i < Z.of_nat (dim_full s) → i ∈ x_free_indices s1)).
Proof.
  intros [Hd Hp]%reachable_consistent Hk.
  pose proof Hd as (_ & _ & _ & _ & _ & Hlen).
  pose proof (py_index_lt _ _ _ Hk) as Hlt.
  pose proof (py_index_lookup _ _ _ Hk) as Hlook.
  exists (notify_objective
            (set_fixed (delete k (x_fixed_indices s))
               (delete k (x_fixed_vals s)) s)).
  split.
  - unfold unfix_parameters. simpl.
    rewrite decide_True by (by eapply list_elem_of_lookup_2).
    rewrite Hk. simpl. unfold py.pop. rewrite !decide_True by lia. simpl.
    apply normalize_agree, consistent_set_fixed; [done|].
    rewrite !length_delete by (apply lookup_lt_is_Some; lia). lia.
  - simpl. split; [done|]. split; [done|]. split.
    + unfold dim. simpl.
      rewrite length_delete by (apply lookup_lt_is_Some; lia). lia.
    + intros Hnd.
      pose proof (not_elem_of_delete_NoDup _ _ _ Hnd Hlook) as Hout.
      split; [done|]. intros Hrange.
      apply elem_of_x_free_indices. by split.
Qed.

Lemma unfix_parameters_fixed_witness :
  ∃ s1, unfix_parameters no_junk state_B (One 1) = Ok s1
        ∧ x_fixed_indices s1 = [] ∧ x_fixed_vals s1 = [] ∧ dim s1 = 3.
Proof.
  destruct (unfix_parameters_fixed no_junk state_B 1 0 reachable_state_B
              eq_refl) as (s1 & H1 & H2 & H3 & H4 & _).
  exists s1. split; [exact H1|]. split; [exact H2|]. split; [exact H3|].
  rewrite H4. reflexivity.
Defined.

Lemma fix_loop_valid (P : Z → Prop) ps k vals fi fv fi1 fv1 :
  NoDup fi → Forall P fi → Forall P ps →
  fix_loop ps k vals fi fv = Ok (fi1, fv1) →
  NoDup fi1 ∧ Forall P fi1.
Proof.
  revert k fi fv. induction ps as [|i rest IH]; intros k fi fv Hnd HP Hps.
  - by intros [= <- <-].
  - intros (v & fi_a & fv_a & _ & Hrest & Hstep)%fix_loop_cons.
    apply Forall_cons in Hps as [Hi Hps].
    destruct Hstep as [(_ & -> & _)|(Hfresh & -> & ->)].
    + by eapply IH.
    + eapply IH; [| |done|done].
      * apply NoDup_app. split; [done|]. split; [|apply NoDup_singleton].
        intros j Hj ->%list_elem_of_singleton. done.
      * apply Forall_app. split; [done|]. by constructor.
Qed.

Lemma unfix_loop_valid (P : Z → Prop) ps fi fv fi1 fv1 :
  NoDup fi → Forall P fi →
  unfix_loop ps fi fv = Ok (fi1, fv1) →
  NoDup fi1 ∧ Forall P fi1.
Proof.
  revert fi fv. induction ps as [|i rest IH]; intros fi fv Hnd HP; simpl.
  - by intros [= <- <-].
  - case_decide as Hi; [|by apply IH].
    intros (k & _ & (fi' & Hfi' & (fv' & _ & Hrest)%bind_Ok)%bind_Ok)%bind_Ok.
    unfold py.pop in Hfi'. case_decide as Hk; [|done]. injection Hfi' as <-.
    eapply IH; [| |done].
    + eapply sublist_NoDup; [done|apply sublist_delete].
    + by apply Forall_delete.
Qed.

(** X8.  The data model's partition is kept: from distinct fixed indices within
    the range, [fix_parameters] with indices of the range and
    [unfix_parameters] with any indices lead to distinct fixed indices
    within the range. *)
Theorem valid_partition_preserved (s : Problem) :
  valid_partition s →
  (∀ junk pis pvs s1,
     Forall (λ i, 0 ≤ i < Z.of_nat (dim_full s)) (as_list pis) →
     fix_parameters junk s pis pvs = Ok s1 → valid_partition s1)
  ∧ (∀ junk pis s1,
       unfix_parameters junk s pis = Ok s1 → valid_partition s1).
Proof.
  intros [Hnd Hin]. split.
  - intros junk pis pvs s1 Hpis. unfold fix_parameters.
    intros ([fi1 fv1] & Hloop & Hnorm)%bind_Ok.
    pose proof (normalize_Ok_fixed _ _ _ Hnorm) as [Hfi _].
    pose proof (normalize_Ok_dim_full _ _ _ Hnorm) as Hdim.
    simpl in Hfi, Hdim. unfold valid_partition. rewrite Hfi, Hdim.
    by eapply fix_loop_valid.
  - intros junk pis s1. unfold unfix_parameters.
    intros ([fi1 fv1] & Hloop & Hnorm)%bind_Ok.
    pose proof (normalize_Ok_fixed _ _ _ Hnorm) as [Hfi _].
    pose proof (normalize_Ok_dim_full _ _ _ Hnorm) as Hdim.
    simpl in Hfi, Hdim. unfold valid_partition. rewrite Hfi, Hdim.
    by eapply unfix_loop_valid.
Qed.

Lemma valid_partition_preserved_witness :
  valid_partition state_A ∧ valid_partition state_B.
Proof.
  assert (valid_partition state_A) as HA.
  { apply (bool_decide_unpack _). vm_compute. exact I. }
  split; [exact HA|].
  apply (proj1 (valid_partition_preserved state_A HA) no_junk (Many [1])
           (Many [fl 1 (-1)]) state_B).
  - apply (bool_decide_unpack _). vm_compute. exact I.
  - vm_compute. reflexivity.
Defined.

Lemma fix_loop_succeeds ps k vals fi fv :
  length fi = length fv → (k ≤ length vals)%nat →
  if decide (k + length ps ≤ length vals)%nat
  then succeeds (fix_loop ps k vals fi fv)
  else fix_loop ps k vals fi fv
       = Raise (IndexError "list index out of range").
Proof.
  revert k fi fv. induction ps as [|i rest IH]; intros k fi fv Hlen Hk.
  - simpl. rewrite decide_True by lia. by eexists.
  - simpl. unfold py.getitem.
    destruct (vals !! k) as [v|] eqn:Hv.
    + apply lookup_lt_Some in Hv. simpl.
      destruct (decide (i ∈ fi)) as [Hi|Hi].
      * destruct (py_index_elem_of i fi Hi) as (q & -> & Hq).
        apply lookup_lt_Some in Hq. simpl. unfold py.setitem.
        rewrite !(decide_True (P := (q < length fv)%nat)) by lia. simpl.
        specialize (IH (S k) fi (<[q := v]> fv)
                      ltac:(by rewrite length_insert) ltac:(lia)).
        repeat case_decide; try lia; done.
      * specialize (IH (S k) (fi ++ [i])%list (fv ++ [v])%list
                      ltac:(rewrite !length_app; simpl; lia) ltac:(lia)).
        repeat case_decide; try lia; done.
    + apply lookup_ge_None in Hv. by rewrite decide_False by lia.
Qed.

(** X9.  [fix_parameters] with lists works through the indices in order and
    reads one value per index: on a reachable state it returns when there
    are at least as many values as indices (values beyond are not looked
    at) and raises the [IndexError] of the list access when there are
    fewer. *)
Theorem fix_parameters_needs_values junk (s : Problem) pis pvs :
  reachable s →
  (length (as_list pis) ≤ length (as_list pvs)
   → succeeds (fix_parameters junk s pis pvs))%nat
  ∧ (length (as_list pvs) < length (as_list pis)
     → fix_parameters junk s pis pvs
       = Raise (IndexError "list index out of range"))%nat.
Proof.
  intros [Hd Hp]%reachable_consistent.
  pose proof Hd as (_ & _ & _ & _ & _ & Hlen).
  pose proof (fix_loop_succeeds (as_list pis) 0 (as_list pvs) _ _ Hlen
                ltac:(lia)) as Hloop.
  unfold fix_parameters. split; intros Hcmp.
  - rewrite decide_True in Hloop by lia. destruct Hloop as [[fi1 fv1] Hrun].
    rewrite Hrun. simpl. eexists.
    apply normalize_agree, consistent_set_fixed; [done|].
    by apply (fix_loop_facts _ _ _ _ _ _ _ Hlen Hrun).
  - rewrite decide_False in Hloop by lia. by rewrite Hloop.
Qed.

Lemma fix_parameters_needs_values_witness :
  succeeds (fix_parameters no_junk state_A (Many [0; 2])
              (Many [fl 1 0; fl 2 0; fl 3 0]))
  ∧ fix_parameters no_junk state_A (Many [0; 2]) (One (fl 1 0))
    = Raise (IndexError "list index out of range").
Proof.
  assert (reachable state_A) as Hr.
  { eapply reach_init. exact scenario_A_state. }
  split.
  - apply (proj1 (fix_parameters_needs_values no_junk state_A (Many [0; 2])
                    (Many [fl 1 0; fl 2 0; fl 3 0]) Hr)).
    simpl. lia.
  - apply (proj2 (fix_parameters_needs_values no_junk state_A (Many [0; 2])
                    (One (fl 1 0)) Hr)).
    simpl. lia.
Defined.

(** ** The free indices and [dim] *)

(** X10.  The free indices depend on the set of fixed indices only, not on the
    order in which they were fixed nor on repetitions. *)
Theorem x_free_indices_order_independent (s1 s2 : Problem) :
  dim_full s1 = dim_full s2 →
  (∀ i, i ∈ x_fixed_indices s1 ↔ i ∈ x_fixed_indices s2) →
  x_free_indices s1 = x_free_indices s2.
Proof.
  intros Hdim Hsame. rewrite !x_free_indices_free_of, Hdim.
  unfold free_of. apply list_filter_iff. intros i. by rewrite Hsame.
Qed.

Lemma x_free_indices_order_independent_witness :
  x_free_indices (set_fixed [2; 0] [fl 1 0; fl 2 0] state_A)
  = x_free_indices (set_fixed [0; 2; 0] [fl 2 0; fl 1 0; fl 3 0] state_A).
Proof.
  apply x_free_indices_order_independent; [reflexivity|].
  intros i. simpl. rewrite !elem_of_cons, !elem_of_nil. tauto.
Defined.

Lemma free_of_counts n fixed :
  (n ≤ length (free_of n fixed) + length fixed)%nat
  ∧ ((length (free_of n fixed) + length fixed)%nat = n →
     NoDup fixed ∧ Forall (λ i, 0 ≤ i < Z.of_nat n) fixed).
Proof.
  pose (X := filter (λ j : Z, ¬ (j ∉ fixed)) (seqZ 0 (Z.of_nat n))).
  assert ((length (free_of n fixed) + length X)%nat = n) as Hsum.
  { unfold free_of, X. rewrite <-length_app.
    rewrite (filter_app_complement (λ j : Z, j ∉ fixed)).
    rewrite length_seqZ. lia. }
  assert (∀ j, j ∈ X → j ∈ fixed ∧ 0 ≤ j < Z.of_nat n) as HX.
  { intros j [Hj Hr%elem_of_seqZ]%list_elem_of_filter.
    split; [by destruct (decide (j ∈ fixed))|lia]. }
  assert (X ⊆+ fixed) as Hsub.
  { apply NoDup_submseteq; [apply NoDup_filter, NoDup_seqZ|].
    intros j Hj. by apply HX. }
  pose proof (submseteq_length _ _ Hsub) as Hle.
  split; [lia|]. intros Heq.
  assert (X ≡ₚ fixed) as Hperm.
  { apply submseteq_length_Permutation; [done|lia]. }
  split.
  - rewrite <-Hperm. apply NoDup_filter, NoDup_seqZ.
  - rewrite <-Hperm. apply Forall_forall. intros j Hj. by apply HX.
Qed.

(** X11.  [dim] (the full dimension minus the number of fixed indices) never
    exceeds the number of free indices, and the two agree exactly when the
    fixed indices are distinct and within the range: a repeated or
    out-of-range fixed index makes [dim] too small. *)
Theorem dim_counts_free_iff_valid (s : Problem) :
  dim s ≤ Z.of_nat (length (x_free_indices s))
  ∧ (Z.of_nat (length (x_free_indices s)) = dim s ↔ valid_partition s).
Proof.
  pose proof (free_of_counts (dim_full s) (x_fixed_indices s)) as [Hle Heq].
  rewrite <-x_free_indices_free_of in Hle, Heq.
  unfold dim. split; [lia|]. split.
  - intros H. apply Heq. lia.
  - intros Hvalid. by apply length_x_free_indices.
Qed.

(** X12.  The column [free] of the parameter summary has one entry per
    coordinate, which is false exactly for the fixed indices. *)
Theorem free_column_marks_fixed (s : Problem) :
  length (free_column s) = dim_full s
  ∧ ∀ j : nat, (j < dim_full s)%nat →
      free_column s !! j
      = Some (bool_decide (Z.of_nat j ∉ x_fixed_indices s)).
Proof.
  unfold free_column. split.
  - rewrite length_fmap, length_seqZ. lia.
  - intros j Hj. rewrite list_lookup_fmap, lookup_seqZ_lt by lia. simpl.
    f_equal. apply bool_decide_ext. rewrite elem_of_x_free_indices.
    rewrite Z.add_0_l. intuition lia.
Qed.

(** ** The reduced views of the bounds *)

Lemma take_in_range a idx :
  (∀ i, i ∈ idx → 0 ≤ i < Z.of_nat (length a)) →
  ∃ vs, np.take a idx = Ok vs
        ∧ length vs = length idx
        ∧ ∀ j i, idx !! j = Some i → vs !! j = a !! Z.to_nat i.
Proof.
  intros Hin.
  exists ((λ i, default nan (a !! Z.to_nat i)) <$> idx).
  assert (∀ j i, idx !! j = Some i →
            ((λ i, default nan (a !! Z.to_nat i)) <$> idx) !! j
            = a !! Z.to_nat i) as Hcells.
  { intros j i Hj. rewrite list_lookup_fmap, Hj. simpl.
    destruct (a !! Z.to_nat i) eqn:Hi; [done|].
    apply lookup_ge_None in Hi.
    assert (i ∈ idx) as Hi' by (by eapply list_elem_of_lookup_2).
    apply Hin in Hi'. lia. }
  split; [|split; [by rewrite length_fmap|done]].
  apply take_Ok; [|by rewrite length_fmap|].
  - intros i Hi. apply Hin in Hi. lia.
  - intros j i Hj. by rewrite (Hcells j i Hj).
Qed.

(** X13.  On a reachable state the properties [lb] and [ub] return the bounds
    of the free coordinates, in ascending order of the coordinates. *)
Theorem reduced_bounds_view (s : Problem) :
  reachable s →
  ∃ l u,
    lb s = Ok l ∧ ub s = Ok u
    ∧ length l = length (x_free_indices s)
    ∧ length u = length (x_free_indices s)
    ∧ ∀ k i, x_free_indices s !! k = Some i →
        l !! k = lb_full s !! Z.to_nat i ∧ u !! k = ub_full s !! Z.to_nat i.
Proof.
  intros [(Hlb & Hub & _) _]%reachable_consistent.
  destruct (take_in_range (lb_full s) (x_free_indices s))
    as (l & Hl & Hll & Hlc).
  { intros i Hi. rewrite Hlb. by apply x_free_indices_range. }
  destruct (take_in_range (ub_full s) (x_free_indices s))
    as (u & Hu & Hul & Huc).
  { intros i Hi. rewrite Hub. by apply x_free_indices_range. }
  exists l, u. repeat split; auto.
Qed.

Lemma reduced_bounds_view_witness :
  lb state_B = Ok [fl 0 0; fl 0 0] ∧ ub state_B = Ok [fl 1 0; fl 1 0]
  ∧ ∃ l, lb state_B = Ok l ∧ length l = length (x_free_indices state_B).
Proof.
  split; [vm_compute; reflexivity|]. split; [vm_compute; reflexivity|].
  destruct (reduced_bounds_view state_B reachable_state_B)
    as (l & u & Hl & _ & Hlen & _).
  by exists l.
Defined.

(** ** [get_full_vector] and [get_reduced_vector] on vectors *)

Lemma free_of_nil n : free_of n [] = seqZ 0 (Z.of_nat n).
Proof.
  unfold free_of.
  induction (seqZ 0 (Z.of_nat n)) as [|j l IH]; [done|].
  rewrite filter_cons_True by apply not_elem_of_nil. by f_equal.
Qed.

(** The cells of the full vector built from a reduced vector and a fill. *)
Lemma full_vector_cells s x f :
  valid_partition s →
  length x = length (x_free_indices s) →
  length x ≠ dim_full s →
  length f = length (x_fixed_indices s) →
  ∃ a, get_full_vector s (Some (Arr1 x)) (Some f) = Ok (Some (Arr1 a))
       ∧ length a = dim_full s
       ∧ (∀ k i, x_free_indices s !! k = Some i → a !! Z.to_nat i = x !! k)
       ∧ (∀ k i, x_fixed_indices s !! k = Some i → a !! Z.to_nat i = f !! k).
Proof.
  intros [Hnd Hin] Hx Hne Hf. rewrite Forall_forall in Hin.
  rewrite get_full_vector_scatter by done.
  destruct (put_succeeds (nan_vector (dim_full s)) (x_free_indices s) x)
    as [a1 Ha1]; [|done|].
  { intros i Hi. rewrite length_nan_vector. by apply x_free_indices_range. }
  pose proof (put_length _ _ _ _ Ha1) as Hlen1.
  rewrite length_nan_vector in Hlen1.
  destruct (put_succeeds a1 (x_fixed_indices s) f) as [a2 Ha2]; [|done|].
  { intros i Hi. rewrite Hlen1. by apply Hin. }
  rewrite Ha1. simpl. rewrite Ha2. simpl. exists a2.
  split; [done|].
  pose proof (put_length _ _ _ _ Ha2) as Hlen2.
  split; [lia|].
  assert (np.scatter a1 (x_fixed_indices s) f = Ok a2) as Hsc2.
  { unfold np.put in Ha2. by rewrite broadcast_same in Ha2. }
  assert (∀ i, i ∈ x_fixed_indices s → 0 ≤ i) as Hpos.
  { intros i Hi. apply Hin in Hi. lia. }
  split.
  - intros k i Hk.
    rewrite nan_vector_replicate in Ha1.
    pose proof (put_nan_scattered s x a1 Ha1) as (_ & Hfree & _).
    rewrite (scatter_lookup_ne _ _ _ _ (Z.to_nat i) Hpos) with (2 := Hsc2).
    + by apply Hfree.
    + assert (i ∈ x_free_indices s) as Hi
        by (by eapply list_elem_of_lookup_2).
      apply elem_of_x_free_indices in Hi as [Hi ?].
      by rewrite Z2Nat.id by lia.
  - intros k i Hk.
    destruct (f !! k) as [v|] eqn:Hv.
    + by eapply scatter_lookup.
    + apply lookup_ge_None in Hv. apply lookup_lt_Some in Hk. lia.
Qed.

(** X14.  With a fill of one value per fixed index, [get_full_vector] puts the
    reduced vector at the free positions and the fill at the fixed
    positions (in the order of [x_fixed_indices]); the result has length
    [dim_full]. *)
Theorem get_full_vector_with_fill (s : Problem) (x f : list float) :
  valid_partition s →
  length x = length (x_free_indices s) →
  length x ≠ dim_full s →
  length f = length (x_fixed_indices s) →
  ∃ a, get_full_vector s (Some (Arr1 x)) (Some f) = Ok (Some (Arr1 a))
       ∧ length a = dim_full s
       ∧ (∀ k i, x_free_indices s !! k = Some i → a !! Z.to_nat i = x !! k)
       ∧ (∀ k i, x_fixed_indices s !! k = Some i → a !! Z.to_nat i = f !! k).
Proof. apply full_vector_cells. Qed.

Lemma get_full_vector_with_fill_witness :
  ∃ a, get_full_vector state_B (Some (Arr1 [fl 10 0; fl 20 0]))
         (Some [fl 1 (-1)]) = Ok (Some (Arr1 a))
       ∧ length a = dim_full state_B.
Proof.
  destruct (get_full_vector_with_fill state_B [fl 10 0; fl 20 0] [fl 1 (-1)]
              valid_partition_state_B)
    as (a & Ha & Hlen & _); [reflexivity|vm_compute; discriminate|
                             reflexivity|].
  by exists a.
Defined.

Lemma valid_partition_cover s j :
  valid_partition s → (j < dim_full s)%nat →
  (∃ k, x_free_indices s !! k = Some (Z.of_nat j))
  ∨ (∃ k, x_fixed_indices s !! k = Some (Z.of_nat j)).
Proof.
  intros _ Hj. destruct (decide (Z.of_nat j ∈ x_fixed_indices s)) as [Hf|Hf].
  - right. by apply list_elem_of_lookup_1.
  - left. apply list_elem_of_lookup_1, elem_of_x_free_indices.
    split; [done|lia].
Qed.

(** X15.  The other round trip: reducing a full vector and expanding the result
    with the fixed cells of the vector as fill gives the vector back. *)
Theorem full_of_reduced_is_identity (s : Problem) (xf : list float) :
  valid_partition s →
  length xf = dim_full s →
  ∃ r f,
    get_reduced_vector s (Some (Arr1 xf)) = Ok (Some (Arr1 r))
    ∧ np.take xf (x_fixed_indices s) = Ok f
    ∧ get_full_vector s (Some (Arr1 r)) (Some f) = Ok (Some (Arr1 xf)).
Proof.
  intros Hvalid Hlen.
  pose proof (length_x_free_indices s Hvalid) as Hdim.
  pose proof Hvalid as [Hnd Hin]. rewrite Forall_forall in Hin.
  destruct (take_in_range xf (x_fixed_indices s)) as (f & Hf & Hfl & Hfc).
  { intros i Hi. rewrite Hlen. by apply Hin. }
  destruct (take_in_range xf (x_free_indices s)) as (r & Hr & Hrl & Hrc).
  { intros i Hi. rewrite Hlen. by apply x_free_indices_range. }
  destruct (decide (Z.of_nat (length xf) = dim s)) as [Heq|Hne].
  - (* nothing is fixed: both maps return their argument *)
    exists xf, f. unfold get_reduced_vector, get_full_vector. simpl.
    rewrite !decide_True by done. done.
  - exists r, f. split.
    { unfold get_reduced_vector. simpl. rewrite decide_False by done.
      by rewrite Hr. }
    split; [done|].
    destruct (full_vector_cells s r f Hvalid) as (a & Ha & Hal & Hfree & Hfix);
      [done|lia|done|].
    rewrite Ha. do 3 f_equal. apply list_eq. intros j.
    destruct (decide (j < dim_full s)%nat) as [Hj|Hj].
    + destruct (valid_partition_cover s j Hvalid Hj) as [[k Hk]|[k Hk]].
      * specialize (Hfree k _ Hk). specialize (Hrc k _ Hk).
        rewrite Nat2Z.id in Hfree, Hrc. congruence.
      * specialize (Hfix k _ Hk). specialize (Hfc k _ Hk).
        rewrite Nat2Z.id in Hfix, Hfc. congruence.
    + rewrite !(proj2 (lookup_ge_None _ _)) by lia. done.
Qed.

Lemma full_of_reduced_is_identity_witness :
  ∃ r f,
    get_reduced_vector state_B (Some (Arr1 [fl 10 0; fl 1 (-1); fl 20 0]))
    = Ok (Some (Arr1 r))
    ∧ np.take [fl 10 0; fl 1 (-1); fl 20 0] (x_fixed_indices state_B) = Ok f
    ∧ get_full_vector state_B (Some (Arr1 r)) (Some f)
      = Ok (Some (Arr1 [fl 10 0; fl 1 (-1); fl 20 0])).
Proof.
  apply (full_of_reduced_is_identity state_B
           [fl 10 0; fl 1 (-1); fl 20 0] valid_partition_state_B).
  reflexivity.
Defined.

Lemma broadcast_succeeds_iff vs n :
  succeeds (np.broadcast vs n) ↔ (length vs = n ∨ length vs = 1%nat).
Proof.
  unfold np.broadcast, succeeds. case_decide as Hn.
  - split; [by left|by eexists].
  - destruct vs as [|v [|w vs]]; simpl in *.
    + split; [by intros [? [=]]|intros [|]; [done|lia]].
    + split; [by right|by eexists].
    + split; [by intros [? [=]]|intros [|]; [done|lia]].
Qed.

(** X16.  Without a fill, [get_full_vector] accepts a vector exactly when its
    length is [dim_full] (returned as it is), the number of free indices,
    or 1; a vector of length 1 is not rejected but broadcast: its value is
    written to every free position. *)
Theorem get_full_vector_accepts (s : Problem) (x : list float) :
  (succeeds (get_full_vector s (Some (Arr1 x)) None)
     ↔ (length x = dim_full s ∨ length x = length (x_free_indices s)
        ∨ length x = 1%nat))
  ∧ ∀ v a, x = [v] → dim_full s ≠ 1%nat →
      get_full_vector s (Some (Arr1 x)) None = Ok (Some (Arr1 a)) →
      ∀ i, i ∈ x_free_indices s → a !! Z.to_nat i = Some v.
Proof.
  assert (∀ vs, succeeds (np.scatter (nan_vector (dim_full s))
                            (x_free_indices s) vs)) as Hsc.
  { intros vs. apply scatter_succeeds. intros i Hi.
    rewrite length_nan_vector. by apply x_free_indices_range. }
  split.
  - destruct (decide (length x = dim_full s)) as [Heq|Hne].
    { unfold get_full_vector. simpl. rewrite decide_True by done.
      split; [by left|by eexists]. }
    rewrite get_full_vector_scatter by done. unfold np.put.
    pose proof (broadcast_succeeds_iff x (length (x_free_indices s))) as Hb.
    split.
    + intros [y Hy]. right. apply Hb.
      destruct (np.broadcast x (length (x_free_indices s))); [|done].
      by eexists.
    + intros [?|Hok]; [done|]. apply Hb in Hok as [vs ->]. simpl.
      destruct (Hsc vs) as [a ->]. by eexists.
  - intros v a -> Hn. rewrite get_full_vector_scatter by done.
    intros (a1 & Ha1 & [= <-])%bind_Ok i Hi.
    unfold np.put in Ha1. apply bind_Ok in Ha1 as (vs & Hvs & Ha1).
    assert (vs = replicate (length (x_free_indices s)) v) as ->.
    { unfold np.broadcast in Hvs. case_decide as Hl; [|by injection Hvs].
      injection Hvs as <-. simpl in Hl. by rewrite <-Hl. }
    apply list_elem_of_lookup_1 in Hi as [k Hk].
    eapply scatter_lookup; [apply NoDup_x_free_indices| |exact Ha1|exact Hk|].
    + intros i' Hi'. apply x_free_indices_range in Hi'. lia.
    + apply lookup_replicate_2. by eapply lookup_lt_Some.
Qed.

Lemma get_full_vector_accepts_witness :
  get_full_vector state_A (Some (Arr1 [fl 9 0])) None
  = Ok (Some (Arr1 [fl 9 0; fl 9 0; fl 9 0]))
  ∧ ∀ i, i ∈ x_free_indices state_A →
         [fl 9 0; fl 9 0; fl 9 0] !! Z.to_nat i = Some (fl 9 0).
Proof.
  assert (get_full_vector state_A (Some (Arr1 [fl 9 0])) None
          = Ok (Some (Arr1 [fl 9 0; fl 9 0; fl 9 0]))) as H
    by (vm_compute; reflexivity).
  split; [exact H|].
  apply (proj2 (get_full_vector_accepts state_A [fl 9 0]) (fl 9 0) _ eq_refl);
    [vm_compute; discriminate|exact H].
Defined.

Lemma take_succeeds_iff a idx :
  (∀ i, i ∈ idx → 0 ≤ i) →
  succeeds (np.take a idx) ↔ ∀ i, i ∈ idx → i < Z.of_nat (length a).
Proof.
  intros Hpos. split.
  - intros [vs Hvs] i Hi. revert vs Hvs.
    induction idx as [|j idx IH]; intros vs; [by apply elem_of_nil in Hi|].
    simpl. intros (k & Hk & Hrest)%bind_Ok.
    apply index_Ok_nonneg in Hk as [-> Hlt]; [|apply Hpos; left].
    pose proof (Hpos j ltac:(left)).
    apply elem_of_cons in Hi as [->|Hi]; [lia|].
    destruct (a !! Z.to_nat j); [|done].
    apply bind_Ok in Hrest as (xs & Hxs & _).
    eapply IH; [|done|exact Hxs]. intros i' Hi'. apply Hpos. by right.
  - intros Hlt. destruct (take_in_range a idx) as (vs & Hvs & _).
    + intros i Hi. split; [by apply Hpos|by apply Hlt].
    + by exists vs.
Qed.

(** X17.  [get_reduced_vector] on a vector whose length is not [dim] reads the
    cells at the free indices and checks nothing else: it returns exactly
    when every free index is below the length of the vector, so a vector
    longer than [dim_full] is accepted and its tail ignored. *)
Theorem get_reduced_vector_accepts (s : Problem) (x_full : list float) :
  Z.of_nat (length x_full) ≠ dim s →
  (succeeds (get_reduced_vector s (Some (Arr1 x_full)))
     ↔ ∀ i, i ∈ x_free_indices s → i < Z.of_nat (length x_full))
  ∧ ∀ r, get_reduced_vector s (Some (Arr1 x_full)) = Ok (Some (Arr1 r)) →
      length r = length (x_free_indices s)
      ∧ ∀ k i, x_free_indices s !! k = Some i →
               r !! k = x_full !! Z.to_nat i.
Proof.
  intros Hne. unfold get_reduced_vector. simpl.
  rewrite decide_False by done.
  assert (∀ i, i ∈ x_free_indices s → 0 ≤ i) as Hpos.
  { intros i Hi. apply x_free_indices_range in Hi. lia. }
  split.
  - rewrite <-take_succeeds_iff by done. split.
    + intros [y Hy]. destruct (np.take x_full (x_free_indices s)); [|done].
      by eexists.
    + intros [r ->]. by eexists.
  - intros r (r' & Hr & [= <-])%bind_Ok.
    assert (∀ i, i ∈ x_free_indices s → i < Z.of_nat (length x_full)) as Hlt.
    { apply take_succeeds_iff; [done|by eexists]. }
    destruct (take_in_range x_full (x_free_indices s)) as (vs & Hvs & Hl & Hc).
    { intros i Hi. split; [by apply Hpos|by apply Hlt]. }
    rewrite Hr in Hvs. injection Hvs as <-. by split.
Qed.

Lemma get_reduced_vector_accepts_witness :
  get_reduced_vector state_B
    (Some (Arr1 [fl 1 0; fl 2 0; fl 3 0; fl 4 0; fl 5 0]))
  = Ok (Some (Arr1 [fl 1 0; fl 3 0]))
  ∧ succeeds (get_reduced_vector state_B
                (Some (Arr1 [fl 1 0; fl 2 0; fl 3 0; fl 4 0; fl 5 0]))).
Proof.
  split; [vm_compute; reflexivity|].
  apply (proj1 (get_reduced_vector_accepts state_B
                  [fl 1 0; fl 2 0; fl 3 0; fl 4 0; fl 5 0]
                  ltac:(vm_compute; discriminate))).
  intros i Hi%x_free_indices_range. simpl in *. lia.
Defined.

(** ** The reduced view of the guesses *)

Lemma normalize_Ok_guesses_rows junk s s' :
  ncols (x_guesses_full s) ≠ dim_full s →
  normalize junk s = Ok s' →
  ncols (x_guesses_full s') = dim_full s
  ∧ Forall2 (scattered s) (rows (x_guesses_full s))
      (rows (x_guesses_full s')).
Proof.
  intros Hw [Hsteps _]%normalize_Ok_iff.
  unfold normalize_steps in Hsteps.
  apply bind_Ok in Hsteps as (s1 & H1 & Hsteps).
  apply bind_Ok in Hsteps as (s2 & H2 & Hsteps).
  apply bind_Ok in Hsteps as (s3 & H3 & [= <-]).
  apply normalize_lb_Ok in H1 as (a & -> & _).
  apply normalize_ub_Ok in H2 as (b & -> & _).
  unfold normalize_guesses in H3. simpl in H3.
  rewrite decide_True in H3 by done.
  apply bind_Ok in H3 as (g & Hg & [= <-]). simpl.
  rewrite empty_nan_replicate in Hg.
  apply put_cols_replicate in Hg as [Hcols Hrows].
  split; [done|].
  eapply Forall2_impl; [exact Hrows|].
  intros v r Hput. by apply (put_nan_scattered s).
Qed.

Lemma mapM_index_range n idx :
  (∀ i, i ∈ idx → 0 ≤ i < Z.of_nat n) →
  mapM (np.index n) idx = Ok (Z.to_nat <$> idx).
Proof.
  induction idx as [|i idx IH]; intros Hin; [done|]. simpl.
  rewrite index_nonneg by (apply Hin; left). simpl.
  rewrite IH; [done|]. intros j Hj. apply Hin. by right.
Qed.

Lemma scattered_rows_take s rs rs' :
  Forall (λ r, length r = length (x_free_indices s)) rs →
  Forall2 (scattered s) rs rs' →
  mapM (λ r, np.take r (x_free_indices s)) rs' = Ok rs.
Proof.
  intros Hwf Hsc. apply mapM_Ok.
  induction Hsc as [|r r' rs rs' (Hlen & Hfree & _) _ IH]; [constructor|].
  apply Forall_cons in Hwf as [Hr Hwf].
  constructor; [|by apply IH].
  apply take_Ok; [|done|].
  - intros i Hi. apply x_free_indices_range in Hi. lia.
  - intros j i Hj. by apply Hfree.
Qed.

(** X18.  Guesses passed in reduced width are stored in full width, and the
    property [x_guesses] of the normalized problem returns them as they
    were passed. *)
Theorem x_guesses_of_reduced_guesses junk (s s' : Problem) :
  matrix_wf (x_guesses_full s) →
  ncols (x_guesses_full s) = length (x_free_indices s) →
  ncols (x_guesses_full s) ≠ dim_full s →
  normalize junk s = Ok s' →
  x_guesses s' = Ok (x_guesses_full s).
Proof.
  intros Hwf Hw Hne Hnorm.
  pose proof (normalize_Ok_guesses_rows _ _ _ Hne Hnorm) as [Hcols Hrows].
  pose proof (normalize_Ok_dim_full _ _ _ Hnorm) as Hdim.
  pose proof (normalize_Ok_fixed _ _ _ Hnorm) as [Hfi _].
  assert (x_free_indices s' = x_free_indices s) as Hfree.
  { by rewrite !x_free_indices_free_of, Hdim, Hfi. }
  unfold x_guesses, np_ix.take_cols. rewrite Hfree.
  rewrite (mapM_index_range (ncols (x_guesses_full s'))).
  2:{ intros i Hi. rewrite Hcols. by apply x_free_indices_range. }
  simpl. rewrite (scattered_rows_take s (rows (x_guesses_full s))).
  - simpl. rewrite <-Hw. by destruct (x_guesses_full s).
  - unfold matrix_wf in Hwf. by rewrite <-Hw.
  - done.
Qed.

Lemma x_guesses_of_reduced_guesses_witness :
  normalize no_junk reduced_guesses_fields = Ok reduced_guesses_problem
  ∧ x_guesses reduced_guesses_problem
    = Ok (Matrix 2 [[fl 10 0; fl 20 0]; [fl 30 0; fl 40 0]]).
Proof.
  assert (normalize no_junk reduced_guesses_fields
          = Ok reduced_guesses_problem) as H by (vm_compute; reflexivity).
  split; [exact H|].
  apply (x_guesses_of_reduced_guesses no_junk reduced_guesses_fields
           reduced_guesses_problem); [|reflexivity| |exact H].
  - apply (bool_decide_unpack _). vm_compute. exact I.
  - vm_compute. discriminate.
Defined.

(** ** [get_full_matrix] and [get_reduced_matrix] *)

Lemma scatter_rows_length g ridx cidx rs g' :
  np_ix.scatter_rows g ridx cidx rs = Ok g' → length g' = length g.
Proof.
  revert g rs. induction ridx as [|i ridx IH]; intros g [|r rs]; simpl;
    try by intros [= <-].
  intros (k & _ & (row & _ & (row' & _ & H)%bind_Ok)%bind_Ok)%bind_Ok.
  apply IH in H. by rewrite length_insert in H.
Qed.

(** A row that no index names is left as it is. *)
Lemma scatter_rows_lookup_ne g ridx cidx rs g' (k : nat) :
  (∀ i, i ∈ ridx → 0 ≤ i) → Z.of_nat k ∉ ridx →
  np_ix.scatter_rows g ridx cidx rs = Ok g' → g' !! k = g !! k.
Proof.
  revert g rs. induction ridx as [|i ridx IH]; intros g [|r rs] Hpos Hk;
    simpl; try by intros [= <-].
  intros (j & Hj & (row & _ & (row' & _ & H)%bind_Ok)%bind_Ok)%bind_Ok.
  apply index_Ok_nonneg in Hj as [-> _]; [|apply Hpos; left].
  rewrite (IH (<[Z.to_nat i := row']> g) rs); [| | |done].
  - apply list_lookup_insert_ne. intros <-. apply Hk.
    rewrite Z2Nat.id by (apply Hpos; left). left.
  - intros i' Hi'. apply Hpos. by right.
  - intros Hin. apply Hk. by right.
Qed.

(** A row named once is the old row with the paired values written at the
    columns. *)
Lemma scatter_rows_lookup g ridx cidx rs g' (j : nat) (i : Z) r :
  NoDup ridx → (∀ i, i ∈ ridx → 0 ≤ i) →
  np_ix.scatter_rows g ridx cidx rs = Ok g' →
  ridx !! j = Some i → rs !! j = Some r →
  ∃ row row', g !! Z.to_nat i = Some row
              ∧ np.put row cidx r = Ok row'
              ∧ g' !! Z.to_nat i = Some row'.
Proof.
  revert g rs j. induction ridx as [|i0 ridx IH]; intros g [|r0 rs] j Hnd Hpos;
    simpl; try done.
  intros (k & Hk & (row & Hrow & (row' & Hrow' & H)%bind_Ok)%bind_Ok)%bind_Ok.
  intros Hi Hr.
  apply NoDup_cons in Hnd as [Hi0 Hnd].
  assert (∀ i', i' ∈ ridx → 0 ≤ i') as Hpos'.
  { intros i' Hi'. apply Hpos. by right. }
  apply index_Ok_nonneg in Hk as [-> Hlt]; [|apply Hpos; left].
  unfold py.getitem in Hrow.
  destruct (g !! Z.to_nat i0) as [row0|] eqn:Hg; [|done].
  injection Hrow as <-.
  destruct j as [|j]; simpl in *.
  - injection Hi as <-. injection Hr as <-.
    exists row0, row'. split; [done|]. split; [done|].
    rewrite (scatter_rows_lookup_ne _ _ _ _ _ (Z.to_nat i0) Hpos') with (2 := H).
    + by apply list_lookup_insert_eq.
    + rewrite Z2Nat.id; [done|]. apply Hpos. left.
  - destruct (IH _ _ _ Hnd Hpos' H Hi Hr) as (row1 & row1' & H1 & H2 & H3).
    exists row1, row1'. split; [|done].
    rewrite list_lookup_insert_ne in H1; [done|].
    intros Heq. apply Hi0.
    assert (i ∈ ridx) as Hin by (by eapply list_elem_of_lookup_2).
    pose proof (Hpos' i Hin). pose proof (Hpos i0 ltac:(left)).
    replace i0 with i by lia. done.
Qed.

Lemma scatter_rows_succeeds n g ridx cidx rs :
  Forall (λ row, length row = n) g →
  (∀ i, i ∈ ridx → 0 ≤ i < Z.of_nat (length g)) →
  (∀ i, i ∈ cidx → 0 ≤ i < Z.of_nat n) →
  Forall (λ r, length r = length cidx) rs →
  succeeds (np_ix.scatter_rows g ridx cidx rs).
Proof.
  revert g rs. induction ridx as [|i ridx IH]; intros g [|r rs] Hg Hr Hc Hrs;
    simpl; try by eexists.
  apply Forall_cons in Hrs as [Hlen Hrs].
  rewrite index_nonneg by (apply Hr; left). simpl.
  destruct (lookup_lt_is_Some_2 g (Z.to_nat i)) as [row Hrow].
  { pose proof (Hr i ltac:(left)). lia. }
  unfold py.getitem. rewrite Hrow. simpl.
  assert (length row = n) as Hrown.
  { rewrite Forall_forall in Hg. eapply Hg, list_elem_of_lookup_2, Hrow. }
  destruct (put_succeeds row cidx r) as [row' Hrow']; [|done|].
  { intros c Hc'. rewrite Hrown. by apply Hc. }
  rewrite Hrow'. simpl. apply IH; [| |done|done].
  - apply Forall_insert; [done|]. apply put_length in Hrow'. lia.
  - intros i' Hi'. rewrite length_insert. apply Hr. by right.
Qed.

(** The rows that [x_full[np.ix_(free, free)] = m] writes, with the
    outcome of each write. *)
Lemma full_matrix_rows s m g :
  nrows m ≠ dim_full s →
  get_full_matrix s (Some m) = Ok (Some g) →
  ∃ rs,
    length rs = length (x_free_indices s)
    ∧ (nrows m = length (x_free_indices s) → rs = rows m)
    ∧ ncols g = dim_full s ∧ nrows g = dim_full s
    ∧ (∀ r, Z.of_nat r ∉ x_free_indices s → (r < dim_full s)%nat →
            rows g !! r = Some (replicate (dim_full s) nan))
    ∧ (∀ j i, x_free_indices s !! j = Some i →
         ∃ r row', rs !! j = Some r
                   ∧ scattered s r row'
                   ∧ rows g !! Z.to_nat i = Some row').
Proof.
  intros Hne. unfold get_full_matrix. rewrite decide_False by done.
  intros (g' & Hput & [= <-])%bind_Ok.
  unfold np_ix.put in Hput. case_decide as Hshape; [|done].
  destruct Hshape as [Hr _].
  apply bind_Ok in Hput as (rs' & Hsc & [= <-]). simpl in *.
  rewrite nan_vector_replicate in Hsc.
  set (rs := if decide (nrows m = length (x_free_indices s)) then rows m
             else match rows m with
                  | r :: _ => replicate (length (x_free_indices s)) r
                  | [] => []
                  end) in *.
  assert (∀ i, i ∈ x_free_indices s → 0 ≤ i) as Hpos.
  { intros i Hi. apply x_free_indices_range in Hi. lia. }
  exists rs. split; [|split; [|split; [done|split; [|split]]]].
  - unfold rs. case_decide as Hn; [done|].
    destruct Hr as [?|H1]; [done|]. unfold nrows in H1.
    destruct (rows m); [done|]. apply length_replicate.
  - intros Hn. unfold rs. by rewrite decide_True.
  - unfold nrows. simpl. apply scatter_rows_length in Hsc.
    by rewrite Hsc, length_replicate.
  - intros r Hr' Hlt.
    rewrite (scatter_rows_lookup_ne _ _ _ _ _ r Hpos Hr' Hsc).
    by apply lookup_replicate_2.
  - intros j i Hj.
    assert (is_Some (rs !! j)) as [r Hrj].
    { apply lookup_lt_is_Some.
      assert (length rs = length (x_free_indices s)) as ->.
      { unfold rs. case_decide as Hn; [done|].
        destruct Hr as [?|H1]; [done|]. unfold nrows in H1.
        destruct (rows m); [done|]. apply length_replicate. }
      by eapply lookup_lt_Some. }
    destruct (scatter_rows_lookup _ _ _ _ _ j i r (NoDup_x_free_indices s)
                Hpos Hsc Hj Hrj) as (row & row' & Hrow & Hrow' & Hg).
    exists r, row'. split; [done|]. split; [|done].
    apply lookup_replicate in Hrow as [-> _].
    by apply put_nan_scattered.
Qed.

(** X19.  [get_full_matrix] on a matrix that has not [dim_full] rows returns a
    [dim_full] x [dim_full] matrix holding NaN in every row and every
    column of a fixed index, and the cells of a [dim] x [dim] input at the
    crossings of the free rows and columns. *)
Theorem get_full_matrix_cells (s : Problem) (m g : matrix) :
  nrows m ≠ dim_full s →
  get_full_matrix s (Some m) = Ok (Some g) →
  ncols g = dim_full s ∧ nrows g = dim_full s
  ∧ (∀ r c, (r < dim_full s)%nat → (c < dim_full s)%nat →
       Z.of_nat r ∈ x_fixed_indices s ∨ Z.of_nat c ∈ x_fixed_indices s →
       cell g r c = Some nan)
  ∧ (matrix_wf m → nrows m = length (x_free_indices s) →
     ncols m = length (x_free_indices s) →
     ∀ j k i1 i2,
       x_free_indices s !! j = Some i1 → x_free_indices s !! k = Some i2 →
       cell g (Z.to_nat i1) (Z.to_nat i2) = cell m j k).
Proof.
  intros Hne Hfull.
  destruct (full_matrix_rows s m g Hne Hfull)
    as (rs & Hlen & Hrs & Hcols & Hrows & Hother & Hfree).
  split; [done|]. split; [done|]. split.
  - intros r c Hr Hc Hfixed. unfold cell.
    destruct (decide (Z.of_nat r ∈ x_free_indices s)) as [Hin|Hout].
    + apply list_elem_of_lookup_1 in Hin as [j Hj].
      destruct (Hfree j _ Hj) as (rr & row' & _ & (_ & _ & Hnan) & Hg).
      rewrite Nat2Z.id in Hg. rewrite Hg. simpl.
      apply Hnan; [done|].
      destruct Hfixed as [Hf|Hf]; [|done].
      apply list_elem_of_lookup_2, elem_of_x_free_indices in Hj as [? _].
      done.
    + rewrite (Hother r Hout Hr). simpl. by apply lookup_replicate_2.
  - intros Hwf Hn Hw j k i1 i2 Hj Hk. unfold cell.
    destruct (Hfree j _ Hj) as (rr & row' & Hrr & (_ & Hcells & _) & Hg).
    rewrite Hg, (Hrs Hn) in *. rewrite Hrr. simpl.
    apply Hcells; [|done].
    unfold matrix_wf in Hwf. rewrite Forall_forall in Hwf.
    rewrite <-Hw. eapply Hwf, list_elem_of_lookup_2, Hrr.
Qed.

Lemma get_full_matrix_succeeds s m :
  matrix_wf m → nrows m = length (x_free_indices s) →
  ncols m = length (x_free_indices s) →
  succeeds (get_full_matrix s (Some m)).
Proof.
  intros Hwf Hn Hw. unfold get_full_matrix.
  case_decide; [by eexists|].
  unfold np_ix.put. rewrite decide_True by (split; by left).
  rewrite decide_True by done. simpl.
  destruct (scatter_rows_succeeds (dim_full s)
              (replicate (dim_full s) (nan_vector (dim_full s)))
              (x_free_indices s) (x_free_indices s) (rows m)) as [g Hg].
  - apply Forall_replicate, length_nan_vector.
  - intros i Hi. rewrite length_replicate. by apply x_free_indices_range.
  - apply x_free_indices_range.
  - unfold matrix_wf in Hwf. by rewrite <-Hw.
  - rewrite Hg. by eexists.
Qed.

(** X20.  Round trip on matrices: expanding a [dim] x [dim] matrix to full size
    and reducing the result gives the matrix back. *)
Theorem reduced_of_full_matrix_is_identity (s : Problem) (m : matrix) :
  valid_partition s →
  matrix_wf m →
  nrows m = length (x_free_indices s) →
  ncols m = length (x_free_indices s) →
  (get_full_matrix s (Some m) ≫= get_reduced_matrix s) = Ok (Some m).
Proof.
  intros Hvalid Hwf Hn Hw.
  pose proof (length_x_free_indices s Hvalid) as Hdim.
  destruct (get_full_matrix_succeeds s m Hwf Hn Hw) as [y Hy].
  rewrite Hy. simpl.
  destruct (decide (nrows m = dim_full s)) as [Heq|Hne].
  { unfold get_full_matrix in Hy. rewrite decide_True in Hy by done.
    injection Hy as <-. unfold get_reduced_matrix.
    rewrite decide_True by lia. done. }
  assert (∃ g, y = Some g) as [g ->].
  { unfold get_full_matrix in Hy. rewrite decide_False in Hy by done.
    apply bind_Ok in Hy as (g & _ & [= <-]). by eexists. }
  destruct (full_matrix_rows s m g Hne Hy)
    as (rs & Hlen & Hrs & Hcols & Hrows & _ & Hfree).
  rewrite (Hrs Hn) in *.
  unfold get_reduced_matrix. rewrite decide_False by lia.
  unfold np_ix.take.
  rewrite (mapM_index_range (ncols g)).
  2:{ intros i Hi. rewrite Hcols. by apply x_free_indices_range. }
  simpl.
  set (sel := (λ i, default [] (rows g !! Z.to_nat i))
                <$> x_free_indices s).
  assert (mapM (λ i, k ← np.index (nrows g) i; py.getitem (rows g) k)
            (x_free_indices s) = Ok sel) as ->.
  { apply mapM_Ok, Forall2_same_length_lookup_2.
    { unfold sel. by rewrite length_fmap. }
    intros j i row Hj Hsel. unfold sel in Hsel.
    rewrite list_lookup_fmap, Hj in Hsel. injection Hsel as <-.
    destruct (Hfree j i Hj) as (r & row' & _ & _ & Hg).
    rewrite index_nonneg.
    2:{ rewrite Hrows. apply x_free_indices_range.
        by eapply list_elem_of_lookup_2. }
    simpl. unfold py.getitem. by rewrite Hg. }
  simpl.
  assert (mapM (λ r, np.take r (x_free_indices s)) sel = Ok (rows m)) as ->.
  { apply mapM_Ok, Forall2_same_length_lookup_2.
    { unfold sel. rewrite length_fmap. by rewrite <-Hn. }
    intros j row r Hsel Hr. unfold sel in Hsel.
    rewrite list_lookup_fmap in Hsel.
    destruct (x_free_indices s !! j) as [i|] eqn:Hj; [|done].
    injection Hsel as <-.
    destruct (Hfree j i Hj) as (r' & row' & Hr' & (_ & Hcells & _) & Hg).
    rewrite Hg. simpl. assert (r' = r) as -> by congruence.
    assert (length r = length (x_free_indices s)) as Hrl.
    { unfold matrix_wf in Hwf. rewrite Forall_forall in Hwf.
      rewrite <-Hw. eapply Hwf, list_elem_of_lookup_2, Hr. }
    apply take_Ok; [|done|].
    - intros i' Hi'. apply x_free_indices_range in Hi'. lia.
    - intros k i' Hk. by apply Hcells. }
  simpl. rewrite <-Hw. by destruct m.
Qed.

Lemma reduced_of_full_matrix_is_identity_witness :
  get_full_matrix state_B (Some hessian_2x2)
  = Ok (Some (Matrix 3 [[fl 1 0; nan; fl 2 0];
                        [nan; nan; nan];
                        [fl 2 0; nan; fl 3 0]]))
  ∧ (get_full_matrix state_B (Some hessian_2x2)
       ≫= get_reduced_matrix state_B) = Ok (Some hessian_2x2).
Proof.
  split; [vm_compute; reflexivity|].
  apply (reduced_of_full_matrix_is_identity state_B hessian_2x2
           valid_partition_state_B); [|reflexivity|reflexivity].
  apply (bool_decide_unpack _). vm_compute. exact I.
Defined.

Lemma get_full_matrix_cells_witness :
  cell (Matrix 3 [[fl 1 0; nan; fl 2 0];
                  [nan; nan; nan];
                  [fl 2 0; nan; fl 3 0]]) 1 2 = Some nan
  ∧ cell (Matrix 3 [[fl 1 0; nan; fl 2 0];
                    [nan; nan; nan];
                    [fl 2 0; nan; fl 3 0]]) 2 1 = Some nan.
Proof.
  pose proof (get_full_matrix_cells state_B hessian_2x2
                (Matrix 3 [[fl 1 0; nan; fl 2 0];
                           [nan; nan; nan];
                           [fl 2 0; nan; fl 3 0]])
                ltac:(vm_compute; discriminate)
                ltac:(vm_compute; reflexivity)) as (_ & _ & Hnan & _).
  split.
  - apply Hnan; [simpl; lia..|]. left. simpl. left.
  - apply Hnan; [simpl; lia..|]. right. simpl. left.
Defined.

(** ** [normalize] on bounds in reduced size *)

Lemma lookup_empty junk n j :
  (j < n)%nat → np.empty junk n !! j = Some (junk j).
Proof.
  intros Hj. unfold np.empty. by rewrite list_lookup_fmap, lookup_seq_lt.
Qed.

(** The first two statements of the rebuild branch, lines 159-160: the
    fresh array is read at the free indices and written back there, which
    leaves it as it is. *)
Lemma rebuild_free_cells junk s :
  ∃ reduced a1,
    np.take (np.empty junk (dim_full s)) (x_free_indices s) = Ok reduced
    ∧ np.put (np.empty junk (dim_full s)) (x_free_indices s) reduced = Ok a1
    ∧ length a1 = dim_full s
    ∧ ∀ j, (j < dim_full s)%nat → a1 !! j = Some (junk j).
Proof.
  destruct (take_in_range (np.empty junk (dim_full s)) (x_free_indices s))
    as (reduced & Hred & Hlen & Hcells).
  { intros i Hi. rewrite length_empty. by apply x_free_indices_range. }
  destruct (put_succeeds (np.empty junk (dim_full s)) (x_free_indices s)
              reduced) as [a1 Ha1]; [|done|].
  { intros i Hi. rewrite length_empty. by apply x_free_indices_range. }
  exists reduced, a1. split; [done|]. split; [done|].
  pose proof (put_length _ _ _ _ Ha1) as Hlen1. rewrite length_empty in Hlen1.
  split; [done|]. intros j Hj.
  assert (∀ i, i ∈ x_free_indices s → 0 ≤ i) as Hpos.
  { intros i Hi. apply x_free_indices_range in Hi. lia. }
  unfold np.put in Ha1. rewrite broadcast_same in Ha1 by done.
  simpl in Ha1.
  destruct (decide (Z.of_nat j ∈ x_free_indices s)) as [Hin|Hout].
  - apply list_elem_of_lookup_1 in Hin as [k Hk].
    pose proof (Hcells k _ Hk) as Hc. rewrite Nat2Z.id in Hc.
    rewrite lookup_empty in Hc by done.
    pose proof (scatter_lookup _ _ _ _ k _ (junk j)
                  (NoDup_x_free_indices s) Hpos Ha1 Hk Hc) as Hw.
    by rewrite Nat2Z.id in Hw.
  - rewrite (scatter_lookup_ne _ _ _ _ j Hpos Hout Ha1).
    by apply lookup_empty.
Qed.

(** X21.  A lower bound stored in a size that is neither 1 nor [dim_full] is
    rebuilt by [normalize] from the freshly allocated array and the fixed
    values alone: the result has length [dim_full], holds the fixed values
    at the fixed positions and, at every other position, what the
    allocator left there. *)
Theorem normalize_lb_rebuild junk (s : Problem) :
  valid_partition s →
  length (x_fixed_vals s) = length (x_fixed_indices s) →
  length (lb_full s) ≠ 1%nat → length (lb_full s) ≠ dim_full s →
  ∃ a, normalize_lb junk s = Ok (set_lb_full a s)
       ∧ length a = dim_full s
       ∧ (∀ k i, x_fixed_indices s !! k = Some i →
            a !! Z.to_nat i = x_fixed_vals s !! k)
       ∧ (∀ i, i ∈ x_free_indices s →
            a !! Z.to_nat i = Some (junk (Z.to_nat i))).
Proof.
  intros [Hnd Hin] Hvals H1 Hn. rewrite Forall_forall in Hin.
  destruct (rebuild_free_cells junk s) as (reduced & a1 & Hred & Ha1 & Hl1 & Hc1).
  destruct (put_succeeds a1 (x_fixed_indices s) (x_fixed_vals s))
    as [a2 Ha2]; [|done|].
  { intros i Hi. rewrite Hl1. by apply Hin. }
  exists a2. split.
  { unfold normalize_lb. rewrite decide_False by done.
    rewrite decide_True by done. unfold lb. simpl.
    change (x_free_indices (set_lb_full _ s)) with (x_free_indices s).
    rewrite Hred. simpl. rewrite Ha1. simpl. by rewrite Ha2. }
  pose proof (put_length _ _ _ _ Ha2) as Hl2.
  split; [lia|].
  unfold np.put in Ha2. rewrite broadcast_same in Ha2 by done.
  simpl in Ha2.
  assert (∀ i, i ∈ x_fixed_indices s → 0 ≤ i) as Hpos.
  { intros i Hi. apply Hin in Hi. lia. }
  split.
  - intros k i Hk.
    destruct (x_fixed_vals s !! k) as [v|] eqn:Hv.
    + by eapply scatter_lookup.
    + apply lookup_ge_None in Hv. apply lookup_lt_Some in Hk. lia.
  - intros i [Hfree Hrange]%elem_of_x_free_indices.
    rewrite (scatter_lookup_ne _ _ _ _ (Z.to_nat i) Hpos) with (2 := Ha2).
    + apply Hc1. lia.
    + by rewrite Z2Nat.id by lia.
Qed.

Lemma normalize_lb_rebuild_witness :
  ∃ a, normalize_lb (no_junk 0%nat)
         (set_lb_full [fl 10 0; fl 20 0] state_B)
       = Ok (set_lb_full a (set_lb_full [fl 10 0; fl 20 0] state_B))
       ∧ length a = 3%nat.
Proof.
  destruct (normalize_lb_rebuild (no_junk 0%nat)
              (set_lb_full [fl 10 0; fl 20 0] state_B))
    as (a & Ha & Hlen & _).
  - exact valid_partition_state_B.
  - reflexivity.
  - vm_compute. discriminate.
  - vm_compute. discriminate.
  - by exists a.
Defined.

(** X22.  When a bound comes in a size that is neither 1 nor [dim_full] and the
    fixed values are neither as many as the fixed indices nor a single
    value, [normalize] fails in the rebuild with numpy's [ValueError]: the
    sanity check on the two lists is not reached. *)
Theorem normalize_rebuild_shape_error junk (s : Problem) :
  length (lb_full s) ≠ 1%nat → length (lb_full s) ≠ dim_full s →
  length (x_fixed_vals s) ≠ length (x_fixed_indices s) →
  length (x_fixed_vals s) ≠ 1%nat →
  normalize junk s
  = Raise (ValueError "shape mismatch: value array could not be broadcast to indexing result").
Proof.
  intros H1 Hn Hvals Hone.
  destruct (rebuild_free_cells (junk 0%nat) s)
    as (reduced & a1 & Hred & Ha1 & _ & _).
  unfold normalize, normalize_steps, normalize_lb.
  rewrite decide_False by done. rewrite decide_True by done.
  unfold lb. simpl.
  change (x_free_indices (set_lb_full _ s)) with (x_free_indices s).
  rewrite Hred. simpl. rewrite Ha1. simpl.
  unfold np.put, np.broadcast. rewrite decide_False by done.
  by destruct (x_fixed_vals s) as [|v [|w l]].
Qed.

Lemma normalize_rebuild_shape_error_witness :
  normalize no_junk
    (set_fixed [1] [] (set_lb_full [fl 10 0; fl 20 0] state_A))
  = Raise (ValueError "shape mismatch: value array could not be broadcast to indexing result").
Proof.
  apply normalize_rebuild_shape_error; vm_compute; discriminate.
Defined.

(** ** What [__init__] does not check *)

(** X23.  [__init__] accepts any fixed indices: with bounds of full size, no
    guesses, names or scales, and an objective without names, the
    construction returns for every list of fixed indices (repeated,
    negative or beyond the range) that comes with as many values. *)
Theorem init_accepts_any_fixed_indices junk (lb ub : list float)
  (fi : list Z) (fv : list float) :
  length ub = length lb → length fv = length fi →
  ∃ s, __init__ junk no_objective (Many lb) (Many ub) None (Some fi)
         (Some (Many fv)) None None None = Ok s
       ∧ x_fixed_indices s = fi ∧ x_fixed_vals s = fv
       ∧ dim_full s = length lb.
Proof.
  intros Hub Hfv. unfold __init__. simpl.
  rewrite decide_False by lia. rewrite Nat2Z.id.
  eexists. split.
  - apply normalize_agree. unfold dimensions_agree, init_fields. simpl.
    unfold init_names. simpl.
    rewrite ?length_replicate, ?length_fmap, ?length_seq. by repeat split.
  - done.
Qed.

Lemma init_accepts_any_fixed_indices_witness :
  ∃ s, __init__ no_junk no_objective (Many [fl 0 0; fl 0 0])
         (Many [fl 1 0; fl 1 0]) None (Some [7; 7; -9])
         (Some (Many [fl 1 0; fl 2 0; fl 3 0])) None None None = Ok s
       ∧ x_fixed_indices s = [7; 7; -9] ∧ dim s = -1.
Proof.
  destruct (init_accepts_any_fixed_indices no_junk [fl 0 0; fl 0 0]
              [fl 1 0; fl 1 0] [7; 7; -9] [fl 1 0; fl 2 0; fl 3 0]
              eq_refl eq_refl) as (s & Hs & Hfi & _ & Hdim).
  exists s. split; [exact Hs|]. split; [exact Hfi|].
  unfold dim. rewrite Hfi, Hdim. reflexivity.
Defined.

(** ** [full_index_to_free_index] on free indices *)

Lemma StronglySorted_lookup_lt (l : list Z) (k1 k2 : nat) (i j : Z) :
  StronglySorted Z.lt l → l !! k1 = Some i → l !! k2 = Some j →
  (k1 < k2)%nat → i < j.
Proof.
  intros Hs. revert k1 k2. induction Hs as [|x l Hs IH Hx]; intros k1 k2.
  - done.
  - destruct k1 as [|k1], k2 as [|k2]; simpl; try lia.
    + intros [= <-] Hj _. rewrite Forall_forall in Hx.
      eapply Hx, list_elem_of_lookup_2, Hj.
    + intros Hi Hj Hlt. eapply IH; [done..|lia].
Qed.

(** X24.  For a free index of a valid partition (of a full dimension that
    an [int64] can count), [full_index_to_free_index] returns the position
    of the index among the free indices, that is its position in a reduced
    vector; the positions are below [dim] and grow with the index. *)
Theorem free_index_is_position (s : Problem) (i : Z) :
  valid_partition s → Z.of_nat (dim_full s) ≤ 2 ^ 63 →
  i ∈ x_free_indices s →
  ∃ k : nat,
    full_index_to_free_index s i = Ok (Z.of_nat k)
    ∧ x_free_indices s !! k = Some i
    ∧ 0 ≤ Z.of_nat k < dim s
    ∧ ∀ j k', i < j → j ∈ x_free_indices s →
        full_index_to_free_index s j = Ok (Z.of_nat k') → (k < k')%nat.
Proof.
  intros Hvalid Hbound Hi.
  destruct (full_index_to_free_index_position s i Hvalid Hbound Hi)
    as (k & Hk & Hpos).
  exists k. split; [done|]. split; [done|]. split.
  - apply lookup_lt_Some in Hpos.
    pose proof (length_x_free_indices s Hvalid). lia.
  - intros j k' Hij Hj Hk'.
    destruct (full_index_to_free_index_position s j Hvalid Hbound Hj)
      as (k2 & Hk2 & Hpos2).
    assert (k2 = k') as -> by (rewrite Hk2 in Hk'; injection Hk'; lia).
    destruct (decide (k < k')%nat) as [|Hge]; [done|].
    pose proof (free_of_sorted (dim_full s) (x_fixed_indices s)) as Hsorted.
    rewrite <-x_free_indices_free_of in Hsorted.
    destruct (decide (k = k')) as [->|Hne].
    { assert (i = j) by congruence. lia. }
    pose proof (StronglySorted_lookup_lt _ k' k j i Hsorted Hpos2 Hpos
                  ltac:(lia)). lia.
Qed.

Lemma free_index_is_position_witness :
  ∃ k : nat, full_index_to_free_index state_B 2 = Ok (Z.of_nat k)
             ∧ x_free_indices state_B !! k = Some 2.
Proof.
  destruct (free_index_is_position state_B 2 valid_partition_state_B)
    as (k & H1 & H2 & _).
  - vm_compute. discriminate.
  - apply (bool_decide_unpack _). vm_compute. exact I.
  - by exists k.
Defined.
